(** * A contract-driven mock API server: model and properties

    The development embeds the mock API framework made of [server.js]
    (the linkage-enabled version: [startServer] and the per-route
    [handler] closure) and [responseGenerator.js] ([generateResponse]),
    and settles the properties stated about response resolution, the
    linkage store and route registration. It also embeds the handler of
    the first [server.js] and, of the Angular forms of the repository,
    the space validator and the topics of the course form.

    Conventions of the embedding:
    - JavaScript values are the inductive type [value]; conditions of
      the source ([if (data)], [a || b], [content?.example]) go through
      [truthy], never through a presence test;
    - the contract and the static file are read with the shape the
      documentation gives them: an operation has its two extension
      objects and its [responses], a static entry is [{ status, body }].
      Where the code looks a key up that a request or the contract
      chooses ([requestedStatus in responses], [responses[status]],
      [body[referenceField] = reference]), the members that every object
      inherits from [Object.prototype] are taken into account;
    - [req.body] is what [express.json()], in front of every route, left
      there ([serve]); the handler itself is modelled for every value;
    - of Express the model takes the route matcher and the text of the
      parser's error message as given ([Express]); it is Express that
      tries the routes in the order of their registration;
    - the module-level [dataStore] ([new Map()]) is a [gmap string value];
    - the two random collaborators are sequences indexed by the number of
      calls made so far: [uuidv4 n] is the n-th identifier drawn from the
      [uuid] package, a UUID text (which no reading takes for a number),
      and [jsf_resolve n schema] the n-th value produced by
      [json-schema-faker];
    - objects that the source mutates in place ([response.body] may be
      the body held by the static table or the example held by the
      contract) are written back to the place they alias; no two
      operations share a response object;
    - a run of [handler] is one step: between the last [await] and
      [res.json] the store step and the response are one synchronous
      stretch, and what is computed before it is either read-only or
      owned by the run;
    - logging has no effect on state or response and is left out. *)

From Stdlib Require Import ZArith Ascii String.
From stdpp Require Import gmap strings list fin_maps relations pretty.

Local Open Scope string_scope.
Local Open Scope Z_scope.

(** ** JavaScript values *)

Module JS.

(** Numbers are kept as integers: the code never computes with a number,
    it only tests it ([0] and [NaN] are falsy) or passes it on. [VNaN] is
    what [parseInt] gives on a text without leading digits. *)
#[local] Set Warnings "-register-all".
Inductive value : Type :=
  | VUndefined
  | VNull
  | VBool (b : bool)
  | VNum (n : Z)
  | VNaN
  | VStr (s : string)
  | VArr (items : list value)
  | VObj (fields : list (string * value)).

(** ToBoolean. *)
Definition truthy (v : value) : bool :=
  match v with
  | VUndefined | VNull | VNaN => false
  | VBool b => b
  | VNum n => negb (n =? 0)
  | VStr s => negb (String.eqb s "")
  | VArr _ | VObj _ => true
  end.

(** Own properties of an object, listed in the order of their
    enumeration: the keys that are array indices first, in ascending
    order, then the other keys in the order of their creation. *)
Fixpoint assoc_get (k : string) (fs : list (string * value)) : option value :=
  match fs with
  | [] => None
  | (k', v) :: fs' => if String.eqb k k' then Some v else assoc_get k fs'
  end.

(** [v[k]] for the keys the code reads ("error", "status", ...): only
    object literals carry them. *)
Definition get_prop (v : value) (k : string) : value :=
  match v with
  | VObj fs => default VUndefined (assoc_get k fs)
  | _ => VUndefined
  end.

Definition is_digit (c : ascii) : bool :=
  let n := N_of_ascii c in ((48 <=? n) && (n <=? 57))%N.

Definition digit_of (c : ascii) : Z := Z.of_N (N_of_ascii c) - 48.

Fixpoint decimal_value (acc : Z) (s : string) : Z :=
  match s with
  | EmptyString => acc
  | String c s' => decimal_value (10 * acc + digit_of c) s'
  end.

Fixpoint all_digits (s : string) : bool :=
  match s with
  | EmptyString => true
  | String c s' => is_digit c && all_digits s'
  end.

(** A property key is an array index when it is the canonical decimal
    text of an integer below 2^32 - 1. *)
Definition array_index (k : string) : option nat :=
  match k with
  | EmptyString => None
  | String c rest =>
      if all_digits k
         && (negb (Ascii.eqb c "0") || String.eqb rest "")
         && (decimal_value 0 k <? 4294967295)
      then Some (Z.to_nat (decimal_value 0 k))
      else None
  end.

(** [o[k] = v] on own properties: an existing key keeps its place, a
    new array index goes to its place among the indices, and any other
    new key goes last. *)
Fixpoint assoc_replace (k : string) (v : value) (fs : list (string * value))
  : list (string * value) :=
  match fs with
  | [] => []
  | (k', v') :: fs' =>
      if String.eqb k k' then (k, v) :: fs' else (k', v') :: assoc_replace k v fs'
  end.

Fixpoint assoc_insert_index (i : nat) (k : string) (v : value)
    (fs : list (string * value)) : list (string * value) :=
  match fs with
  | [] => [(k, v)]
  | (k', v') :: fs' =>
      match array_index k' with
      | Some j =>
          if (j <? i)%nat then (k', v') :: assoc_insert_index i k v fs'
          else (k, v) :: fs
      | None => (k, v) :: fs
      end
  end.

Definition assoc_set (k : string) (v : value) (fs : list (string * value))
  : list (string * value) :=
  match assoc_get k fs, array_index k with
  | Some _, _ => assoc_replace k v fs
  | None, Some i => assoc_insert_index i k v fs
  | None, None => fs ++ [(k, v)]
  end.

(** [a[i] = v] on an array: in range it replaces, past the end the array
    grows and the gap reads as [undefined]. *)
Definition array_set (i : nat) (v : value) (items : list value) : list value :=
  if (i <? length items)%nat then <[i := v]> items
  else items ++ replicate (i - length items) VUndefined ++ [v].

(** The property names that every object inherits from
    [Object.prototype]. *)
Definition object_prototype_keys : list string :=
  ["constructor"; "__defineGetter__"; "__defineSetter__"; "hasOwnProperty";
   "__lookupGetter__"; "__lookupSetter__"; "isPrototypeOf";
   "propertyIsEnumerable"; "toString"; "valueOf"; "__proto__";
   "toLocaleString"].

Definition inherited_key (k : string) : bool :=
  bool_decide (k ∈ object_prototype_keys).

(** The effect of the statement [target[k] = reference] on what [target]
    denotes, [reference] being a text; [None] when the statement throws.
    On an object the property is added or replaced, except that
    [__proto__], unless it is an own property, is the inherited setter,
    which drops a text. On an array an index sets the element, [length]
    throws a RangeError (a reference is not the text of a number), and
    any other key only adds a property that neither later reads of the
    code nor [res.json] see. The module is not in strict mode: on a
    primitive the assignment is dropped. *)
Definition assign_prop (target : value) (k : string) (reference : string)
  : option value :=
  match target with
  | VObj fs =>
      if String.eqb k "__proto__" && negb (bool_decide (is_Some (assoc_get k fs)))
      then Some (VObj fs)
      else Some (VObj (assoc_set k (VStr reference) fs))
  | VArr items =>
      if String.eqb k "length" then None
      else match array_index k with
           | Some i => Some (VArr (array_set i (VStr reference) items))
           | None => Some (VArr items)
           end
  | other => Some other
  end.

(** *** String primitives used by the code *)

Definition upper_ascii (c : ascii) : ascii :=
  let n := N_of_ascii c in
  if ((97 <=? n) && (n <=? 122))%N then ascii_of_N (n - 32) else c.

Definition lower_ascii (c : ascii) : ascii :=
  let n := N_of_ascii c in
  if ((65 <=? n) && (n <=? 90))%N then ascii_of_N (n + 32) else c.

Fixpoint string_map (f : ascii -> ascii) (s : string) : string :=
  match s with
  | EmptyString => EmptyString
  | String c s' => String (f c) (string_map f s')
  end.

Definition toUpperCase : string -> string := string_map upper_ascii.
Definition toLowerCase : string -> string := string_map lower_ascii.

Definition is_space (c : ascii) : bool :=
  let n := N_of_ascii c in ((n =? 32) || ((9 <=? n) && (n <=? 13)))%N.

Fixpoint skip_space (s : string) : string :=
  match s with
  | String c s' => if is_space c then skip_space s' else s
  | EmptyString => s
  end.

Definition hex_digit (c : ascii) : option Z :=
  let n := Z.of_N (N_of_ascii c) in
  if (48 <=? n) && (n <=? 57) then Some (n - 48)
  else if (97 <=? n) && (n <=? 102) then Some (n - 87)
  else if (65 <=? n) && (n <=? 70) then Some (n - 55)
  else None.

(** Longest prefix of digits in the given radix (10 or 16), as a number. *)
Fixpoint read_digits (radix : Z) (acc : option Z) (s : string) : option Z :=
  match s with
  | EmptyString => acc
  | String c s' =>
      match hex_digit c with
      | Some d =>
          if d <? radix then read_digits radix (Some (radix * default 0 acc + d)) s'
          else acc
      | None => acc
      end
  end.

(** [parseInt(s)] without a radix argument. *)
Definition parseInt (s : string) : value :=
  let t := skip_space s in
  let '(sign, u) :=
    match t with
    | String "-" u => (-1, u)
    | String "+" u => (1, u)
    | _ => (1, t)
    end in
  let '(radix, w) :=
    match u with
    | String "0" (String "x" w) | String "0" (String "X" w) => (16, w)
    | _ => (10, u)
    end in
  match read_digits radix None w with
  | Some n => VNum (sign * n)
  | None => VNaN
  end.

End JS.
Export JS.

(** ** The contract, the static table and the state of the server *)

(** [responseDef.content['application/json']]: a member that the contract
    leaves out reads as [VUndefined]. *)
Record media_type := MediaType {
  example : value;
  schema : value
}.

(** An entry of [operation.responses]; [json_content] is
    [responseDef.content?.['application/json']]. *)
Record response_def := ResponseDef {
  json_content : option media_type
}.

(** [x-mock-retrieve: { param }] and [x-mock-store: { referenceField }]. *)
Record mock_retrieve := MockRetrieve { param : string }.
Record mock_store := MockStore { referenceField : option string }.

Record operation := Operation {
  x_mock_retrieve : option mock_retrieve;
  x_mock_store : option mock_store;
  responses : option (gmap string response_def)
}.

(** An entry [{ status, body }] of the static responses file. *)
Record static_entry := StaticEntry {
  static_status : value;
  static_body : value
}.

(** [staticResponses]: path, then upper-case method. *)
Abbreviation static_table := (gmap string (gmap string static_entry)).

(** What the handler passes to [res.status(..).json(..)], or
    [Unanswered] when it throws before it gets there. *)
Inductive response :=
  | Response (status body : value)
  | Unanswered.

Definition status (r : response) : value :=
  match r with Response s _ => s | Unanswered => VUndefined end.

Definition body (r : response) : value :=
  match r with Response _ b => b | Unanswered => VUndefined end.

(** The request as the handler sees it: [req.params] has been filled in by
    the router and [req.body] by the body parser. *)
Record request := Request {
  req_headers : gmap string string;
  req_params : gmap string string;
  req_body : value
}.

(** Everything a handler can read or change besides its own operation:
    the module-level [dataStore], the [staticResponses] object of
    [startServer], and how many values each random collaborator has
    handed out. *)
Record state := State {
  dataStore : gmap string value;
  staticResponses : static_table;
  uuid_calls : nat;
  jsf_calls : nat
}.

Definition initial_state (statics : static_table) : state :=
  State ∅ statics 0 0.

(** Where the object returned as [body] by [generateResponse] lives: in
    the static table, in the contract (the example of one status), or
    nowhere else (a generated object, a literal). *)
Inductive body_origin :=
  | InStaticTable
  | InExample (status_key : string)
  | Fresh.

Record generated := Generated {
  gen_response : response;
  gen_origin : body_origin;
  gen_jsf_calls : nat
}.

Definition not_found : response :=
  Response (VNum 404) (VObj [("error", VStr "Not found")]).

Definition no_response_defined (status_key : string) : response :=
  Response (VNum 500)
    (VObj [("error", VStr ("No response defined for status " +:+ status_key))]).

Section Handler.

(** The two random collaborators (see the header). *)
Variable uuidv4 : nat -> string.
Variable jsf_resolve : nat -> value -> value.

(** *** responseGenerator.js *)

(** [staticResponses[path]?.[method.toUpperCase()]] *)
Definition static_lookup (statics : static_table) (path method : string)
  : option static_entry :=
  statics !! path ≫= λ by_method, by_method !! toUpperCase method.

(** [requestedStatus in responses ? requestedStatus : '200'], with
    [responses] standing for [operation.responses || {}]: [in] holds of
    the declared statuses and of the names inherited from
    [Object.prototype]. *)
Definition selected_status (op : operation) (requestedStatus : string) : string :=
  if decide (is_Some (default ∅ (responses op) !! requestedStatus))
  then requestedStatus
  else if inherited_key requestedStatus then requestedStatus
  else "200".

Definition generateResponse (path method : string) (op : operation)
    (statics : static_table) (requestedStatus : string) (jsf_n : nat)
  : generated :=
  match static_lookup statics path method with
  | Some staticResp =>
      Generated (Response (static_status staticResp) (static_body staticResp))
                InStaticTable jsf_n
  | None =>
      let resps := default ∅ (responses op) in
      let status_key := selected_status op requestedStatus in
      match resps !! status_key with
      | None =>
          (* [responses[status]] of an inherited name is that member of
             [Object.prototype]: truthy, and without [content] *)
          if inherited_key status_key then
            Generated (Response (parseInt status_key) (VObj [])) Fresh jsf_n
          else Generated (no_response_defined status_key) Fresh jsf_n
      | Some responseDef =>
          let content := json_content responseDef in
          let ex := from_option example VUndefined content in
          let sch := from_option schema VUndefined content in
          if truthy ex then
            Generated (Response (parseInt status_key) ex)
                      (InExample status_key) jsf_n
          else if truthy sch then
            Generated (Response (parseInt status_key) (jsf_resolve jsf_n sch))
                      Fresh (S jsf_n)
          else
            Generated (Response (parseInt status_key) (VObj [])) Fresh jsf_n
      end
  end.

(** *** The handler closure of server.js *)

(** [req.headers['x-mock-response'] || '200'] *)
Definition requested_status (req : request) : string :=
  match req_headers req !! "x-mock-response" with
  | Some h => if String.eqb h "" then "200" else h
  | None => "200"
  end.

(** [dataStore.get(req.params[param])]: a parameter that the route does
    not bind reads as [undefined], which is not a key of the store. *)
Definition store_get (store : gmap string value) (reference : option string)
  : value :=
  default VUndefined (reference ≫= λ k, store !! k).

Definition set_static_body (new_body : value) (e : static_entry) : static_entry :=
  StaticEntry (static_status e) new_body.

Definition set_example (new_example : value) (d : response_def) : response_def :=
  ResponseDef ((λ m, MediaType new_example (schema m)) <$> json_content d).

(** The object that [response.body] aliases, after the assignment
    [response.body[referenceField] = reference]. *)
Definition write_back_static (path method : string) (new_body : value)
    (statics : static_table) : static_table :=
  alter (alter (set_static_body new_body) (toUpperCase method)) path statics.

Definition write_back_example (status_key : string) (new_body : value)
    (op : operation) : operation :=
  Operation (x_mock_retrieve op) (x_mock_store op)
            (alter (set_example new_body) status_key <$> responses op).

(** [referenceField] is used only when truthy. *)
Definition usable_field (s : mock_store) : option string :=
  match referenceField s with
  | Some f => if String.eqb f "" then None else Some f
  | None => None
  end.

(** One run of [handler] for the route built from [(path, methods)] and
    [(method, operation)]: the state and the operation object afterwards,
    and what is passed to [res]. *)
Definition handler (path method : string) (op : operation)
    (st : state) (req : request) : state * operation * response :=
  let requestedStatus := requested_status req in
  match x_mock_retrieve op with
  | Some retrieve =>
      let reference := req_params req !! param retrieve in
      let data := store_get (dataStore st) reference in
      if truthy data then (st, op, Response (VNum 200) data)
      else (st, op, not_found)
  | None =>
      let g := generateResponse path method op (staticResponses st)
                 requestedStatus (jsf_calls st) in
      let resp := gen_response g in
      match x_mock_store op with
      | Some store =>
          let reference := uuidv4 (uuid_calls st) in
          let stored := <[reference := req_body req]> (dataStore st) in
          let calls := S (uuid_calls st) in
          match (if truthy (body resp) then usable_field store else None) with
          | Some field =>
              match assign_prop (body resp) field reference with
              | Some new_body =>
                  let resp' := Response (status resp) new_body in
                  match gen_origin g with
                  | InStaticTable =>
                      (State stored
                             (write_back_static path method new_body
                                (staticResponses st))
                             calls (gen_jsf_calls g),
                       op, resp')
                  | InExample status_key =>
                      (State stored (staticResponses st) calls (gen_jsf_calls g),
                       write_back_example status_key new_body op, resp')
                  | Fresh =>
                      (State stored (staticResponses st) calls (gen_jsf_calls g),
                       op, resp')
                  end
              | None =>
                  (* the assignment threw: the body is stored, nothing is
                     assigned and nothing is sent; what the runtime does
                     with the rejected promise is not modelled *)
                  (State stored (staticResponses st) calls (gen_jsf_calls g),
                   op, Unanswered)
              end
          | None =>
              (State stored (staticResponses st) calls (gen_jsf_calls g), op, resp)
          end
      | None =>
          (State (dataStore st) (staticResponses st) (uuid_calls st)
                 (gen_jsf_calls g),
           op, resp)
      end
  end.

End Handler.

(** *** Route registration and dispatch

    Of Express the model keeps what the code relies on: [app.get],
    [app.post], ... exist for the HTTP verbs only, so that
    [app[method.toLowerCase()]] is not a function for any other key; the
    middleware and the routes run in the order of their registration,
    and the first route that takes a request handles it (a handler
    here never calls [next]); what Express itself answers when no route
    does is left out. The validator middleware between
    the body parser and the routes is delegated: the requests below are
    those it lets through. *)

(** [path.replace(/\{([^}]+)\}/g, ':$1')]. [pending] holds the text read
    since an opening brace that has not been closed yet. *)
Fixpoint braces_to_colons (pending : option string) (s : string) : string :=
  match s, pending with
  | EmptyString, None => ""
  | EmptyString, Some name => String "{" name
  | String c s', None =>
      if Ascii.eqb c "{" then braces_to_colons (Some "") s'
      else String c (braces_to_colons None s')
  | String c s', Some name =>
      if Ascii.eqb c "}" then
        if String.eqb name "" then
          String "{" (String "}" (braces_to_colons None s'))
        else String ":" name +:+ braces_to_colons None s'
      else braces_to_colons (Some (name +:+ String c "")) s'
  end.

Definition route_pattern (path : string) : string := braces_to_colons None path.

(** What [forEach] captures for one route: the registration verb and
    pattern, and the variables [path], [method] and [operation] that the
    handler closes over. *)
Record route := Route {
  verb : string;
  pattern : string;
  r_path : string;
  r_method : string;
  r_operation : operation
}.

(** The body of a request on the wire: none (or one that is not sent as
    JSON), the JSON text of a value, or a text that is no JSON. *)
Inductive wire_body :=
  | NoBody
  | JsonText (v : value)
  | Malformed.

Record http_request := HttpRequest {
  http_method : string;
  http_path : string;
  http_headers : gmap string string;
  http_body : wire_body
}.

(** What the model takes from Express as given: the matcher of its
    router, [express_match verb pattern method path] being the
    parameters bound when a route registered by [app[verb](pattern, ..)]
    takes a request of that method and path, and the message of the
    error that its body parser raises on a body it refuses. *)
Class Express := {
  express_match : string -> string -> string -> string -> option (gmap string string);
  syntax_error_message : wire_body -> string
}.

(** An error passed to [next]. *)
Record http_error := HttpError {
  err_status : value;
  err_message : string;
  err_errors : value
}.

(** [app.use(express.json())], with the defaults of Express 4: [req.body]
    is [{}] when there is nothing to parse, and in strict mode only the
    text of an object or of an array is accepted; any other text is an
    error of status 400. *)
Definition express_json `{Express} (b : wire_body) : http_error + value :=
  match b with
  | NoBody => inr (VObj [])
  | JsonText (VObj fs) => inr (VObj fs)
  | JsonText (VArr items) => inr (VArr items)
  | _ => inl (HttpError (VNum 400) (syntax_error_message b) VUndefined)
  end.

(** The error-handling middleware of [startServer]; [None] stands for
    [next(err)]. *)
Definition validation_error_handler (err : http_error) : option response :=
  if truthy (err_status err) then
    Some (Response (err_status err)
            (VObj [("error", VStr (err_message err));
                   ("details", err_errors err)]))
  else None.

Definition route_match `{Express} (r : route) (q : http_request)
  : option (gmap string string) :=
  express_match (verb r) (pattern r) (http_method q) (http_path q).

(** First registered route that matches, with its position and the
    parameters bound by its pattern. *)
Fixpoint find_route `{Express} (rs : list route) (q : http_request)
  : option (nat * route * gmap string string) :=
  match rs with
  | [] => None
  | r :: rs' =>
      match route_match r q with
      | Some ps => Some (0%nat, r, ps)
      | None => (λ '(i, r', ps), (S i, r', ps)) <$> find_route rs' q
      end
  end.

Record server := Server {
  routes : list route;
  mem : state
}.

Section Dispatch.

Context `{Express}.
Variable uuidv4 : nat -> string.
Variable jsf_resolve : nat -> value -> value.

Definition set_operation (op : operation) (r : route) : route :=
  Route (verb r) (pattern r) (r_path r) (r_method r) op.

(** One request through the body parser and the router; [None] when the
    code sends nothing: no route takes the request, or the error
    middleware passes the error on. *)
Definition serve (srv : server) (q : http_request) : server * option response :=
  match express_json (http_body q) with
  | inl err => (srv, validation_error_handler err)
  | inr parsed =>
      match find_route (routes srv) q with
      | None => (srv, None)
      | Some (i, r, ps) =>
          let '(st', op', resp) :=
            handler uuidv4 jsf_resolve (r_path r) (r_method r) (r_operation r)
                    (mem srv) (Request (http_headers q) ps parsed) in
          (Server (alter (set_operation op') i (routes srv)) st', Some resp)
      end
  end.

Fixpoint serve_all (srv : server) (qs : list http_request)
  : server * list (option response) :=
  match qs with
  | [] => (srv, [])
  | q :: qs' =>
      let '(srv1, r) := serve srv q in
      let '(srv2, rs) := serve_all srv1 qs' in
      (srv2, r :: rs)
  end.

End Dispatch.

(** *** startServer *)

Definition express_verbs : list string :=
  ["get"; "post"; "put"; "delete"; "patch"; "head"; "options"; "trace"].

Definition is_express_verb (name : string) : bool :=
  bool_decide (name ∈ express_verbs).

(** [spec.paths]: path items in document order, each with its entries in
    document order. For a key that is no verb ([parameters], [summary],
    an extension) registration throws before the entry's value is read. *)
Record contract := Contract {
  paths : list (string * list (string * operation))
}.

Inductive startup_error :=
  | InvalidSpec (message : string)
  | InvalidStatic (message : string)
  | NotAFunction (path method : string).

(** Outcome of reading and parsing a file (and, for the contract, of
    [SwaggerParser.validate]). *)
Inductive loaded (A : Type) :=
  | Loaded (a : A)
  | LoadError (message : string).
Arguments Loaded {A} a.
Arguments LoadError {A} message.

Fixpoint register_methods (path : string) (methods : list (string * operation))
    (app : list route) : startup_error + list route :=
  match methods with
  | [] => inr app
  | (method, op) :: rest =>
      if is_express_verb (toLowerCase method) then
        register_methods path rest
          (app ++ [Route (toLowerCase method) (route_pattern path) path method op])
      else inl (NotAFunction path method)
  end.

Fixpoint register_paths (ps : list (string * list (string * operation)))
    (app : list route) : startup_error + list route :=
  match ps with
  | [] => inr app
  | (path, methods) :: rest =>
      match register_methods path methods app with
      | inr app' => register_paths rest app'
      | inl e => inl e
      end
  end.

(** The routes of a contract whose registration goes through: one per
    entry, in document order. *)
Definition operation_route (path : string) (entry : string * operation) : route :=
  Route (toLowerCase entry.1) (route_pattern path) path entry.1 entry.2.

Definition contract_routes (c : contract) : list route :=
  flat_map (λ item, map (operation_route item.1) item.2) (paths c).

Definition verbs_only (c : contract) : Prop :=
  Forall (λ item, Forall (λ entry : string * operation,
                            is_express_verb (toLowerCase entry.1) = true) item.2)
         (paths c).

(** [statics] is [None] when no [staticPath] is given. The result is the
    server that starts listening, or the error thrown. *)
Definition startServer (spec : loaded contract)
    (statics : option (loaded static_table)) : startup_error + server :=
  match spec with
  | LoadError m => inl (InvalidSpec ("Invalid OpenAPI spec: " +:+ m))
  | Loaded c =>
      match
        match statics with
        | None => inr ∅
        | Some (Loaded table) => inr table
        | Some (LoadError m) =>
            inl (InvalidStatic ("Invalid static responses file: " +:+ m))
        end
      with
      | inl e => inl e
      | inr table =>
          match register_paths (paths c) [] with
          | inr rs => inr (Server rs (initial_state table))
          | inl e => inl e
          end
      end
  end.

(** *** What the store step does to a response body

    [with_reference store reference b] is [b] after
    [if (response.body && referenceField) response.body[referenceField] = reference],
    or [None] when the assignment throws. *)
Definition with_reference (store : mock_store) (reference : string) (b : value)
  : option value :=
  match (if truthy b then usable_field store else None) with
  | Some field => assign_prop b field reference
  | None => Some b
  end.

(** What is passed to [res] after the store step. *)
Definition stored_response (store : mock_store) (reference : string)
    (generated_response : response) : response :=
  match with_reference store reference (body generated_response) with
  | Some b => Response (status generated_response) b
  | None => Unanswered
  end.

(** *** Runs of the server

    A step is one run of any handler on any request; the states of a
    running server are those reached from its initial state. *)
Section Steps.

Variable uuidv4 : nat -> string.
Variable jsf_resolve : nat -> value -> value.

Inductive step : state -> state -> Prop :=
  | step_handler path method op st req :
      step st (handler uuidv4 jsf_resolve path method op st req).1.1.

Definition reachable : state -> state -> Prop := rtc step.

(** Every key of the store is an identifier drawn earlier. *)
Definition issued_only (st : state) : Prop :=
  ∀ k, is_Some (dataStore st !! k) →
       ∃ i, (i < uuid_calls st)%nat ∧ k = uuidv4 i.

End Steps.

(** *** The server before linkage

    The first [server.js] has the same [startServer]; its handler only
    generates: no store, no retrieval. What it reads and changes of the
    state is the static table and the count of synthesized values. *)
Section HandlerV1.

Context `{Express}.
Variable jsf_resolve : nat -> value -> value.

Definition handler_v1 (path method : string) (op : operation)
    (statics : static_table) (jsf_n : nat) (req : request) : nat * response :=
  let requestedStatus := requested_status req in
  let g := generateResponse jsf_resolve path method op statics
             requestedStatus jsf_n in
  (gen_jsf_calls g, gen_response g).

(** The first server serving one request, then a list of them, behind
    the same body parser and error middleware: routes and static table
    never change, only the count of synthesized values moves on. *)
Definition serve_v1 (rs : list route) (statics : static_table) (jsf_n : nat)
    (q : http_request) : nat * option response :=
  match express_json (http_body q) with
  | inl err => (jsf_n, validation_error_handler err)
  | inr parsed =>
      match find_route rs q with
      | None => (jsf_n, None)
      | Some (_, r, ps) =>
          let '(n', resp) :=
            handler_v1 (r_path r) (r_method r) (r_operation r) statics jsf_n
                       (Request (http_headers q) ps parsed) in
          (n', Some resp)
      end
  end.

Fixpoint serve_all_v1 (rs : list route) (statics : static_table) (jsf_n : nat)
    (qs : list http_request) : nat * list (option response) :=
  match qs with
  | [] => (jsf_n, [])
  | q :: qs' =>
      let '(n1, r) := serve_v1 rs statics jsf_n q in
      let '(n2, out) := serve_all_v1 rs statics n1 qs' in
      (n2, r :: out)
  end.

End HandlerV1.

(** An operation as the first server knows them: no annotation. *)
Definition plain_operation (op : operation) : Prop :=
  x_mock_retrieve op = None ∧ x_mock_store op = None.

(** *** Vocabulary for statements about paths and patterns *)

Fixpoint has_char (c : ascii) (s : string) : bool :=
  match s with
  | EmptyString => false
  | String c' s' => Ascii.eqb c' c || has_char c s'
  end.

(** The keys, besides the verbs, that a path item of a validated contract
    can carry: the fixed fields and the [x-] extensions. *)
Definition annex_key (k : string) : Prop :=
  k ∈ ["summary"; "description"; "servers"; "parameters"; "$ref"]
  ∨ ∃ rest, k = "x-" +:+ rest.

(** ** The Angular forms of the repository *)

Module Forms.

(** *** username.validator.ts *)

(** [value.indexOf(' ')]: the position of the first space, or -1. *)
Fixpoint indexOf_space_from (i : Z) (s : string) : Z :=
  match s with
  | EmptyString => -1
  | String c s' =>
      if Ascii.eqb c " " then i else indexOf_space_from (i + 1) s'
  end.

Definition indexOf_space (s : string) : Z := indexOf_space_from 0 s.

(** [ValidationErrors | null]: the keys set to [true], or [None]. *)
Definition cannotContainSpace (control_value : string) : option (list string) :=
  if 0 <=? indexOf_space control_value then Some ["cannotContainSpace"]
  else None.

(** *** new-course-form.component.ts

    A [FormControl] is an object: two controls are the same when they are
    the same object, whatever their values. [control_id] is that
    identity, given by the order of creation. The [FormArray] is its
    [controls] array: [push] appends and [removeAt(i)] is
    [controls.splice(i, 1)]. *)
Record form_control := FormControl {
  control_id : nat;
  control_value : string
}.

Record course_form := CourseForm {
  topics : list form_control;
  created : nat
}.

Definition empty_form : course_form := CourseForm [] 0.

(** [this.topics.push(new FormControl(topic.value))] *)
Definition addTopic (topic_value : string) (f : course_form) : course_form :=
  CourseForm (topics f ++ [FormControl (created f) topic_value])
             (S (created f)).

(** [controls.indexOf(topic)] *)
Fixpoint indexOf_from (i : Z) (topic : form_control) (controls : list form_control)
  : Z :=
  match controls with
  | [] => -1
  | c :: rest =>
      if (control_id c =? control_id topic)%nat then i
      else indexOf_from (i + 1) topic rest
  end.

Definition indexOf (topic : form_control) (controls : list form_control) : Z :=
  indexOf_from 0 topic controls.

(** [controls.splice(index, 1)]: a negative index counts from the end,
    and nothing is removed at or past the end. *)
Definition splice_one (index : Z) (controls : list form_control)
  : list form_control :=
  let len := Z.of_nat (length controls) in
  let start := if index <? 0 then Z.max (len + index) 0 else Z.min index len in
  delete (Z.to_nat start) controls.

Definition removeAt (index : Z) (f : course_form) : course_form :=
  CourseForm (splice_one index (topics f)) (created f).

Definition remove (topic : form_control) (f : course_form) : course_form :=
  let index := indexOf topic (topics f) in
  removeAt index f.

(** The forms that a component can be in: every control was created by
    the component, once. *)
Definition well_formed (f : course_form) : Prop :=
  NoDup (control_id <$> topics f)
  ∧ Forall (λ c, (control_id c < created f)%nat) (topics f).

End Forms.

(** *** Runs of a started server

    The servers that [startServer] returns, the requests that end in a
    store step, and the condition that the body parser keeps: whatever is
    in the store is truthy. *)
Definition started (srv : server) : Prop :=
  ∃ spec statics, startServer spec statics = inr srv.

Definition payloads_truthy (st : state) : Prop :=
  ∀ k payload, dataStore st !! k = Some payload → truthy payload = true.

Definition store_operation (op : operation) : bool :=
  bool_decide (is_Some (x_mock_store op) ∧ x_mock_retrieve op = None).

Section ServedRuns.

Context `{Express}.
Variable uuidv4 : nat -> string.
Variable jsf_resolve : nat -> value -> value.

(** The request passes the body parser and goes to a route whose
    operation stores and does not retrieve. *)
Definition is_store_call (srv : server) (q : http_request) : bool :=
  match express_json (http_body q), find_route (routes srv) q with
  | inr _, Some (_, r, _) => store_operation (r_operation r)
  | _, _ => false
  end.

(** How many requests of a run are store calls. *)
Fixpoint store_calls (srv : server) (qs : list http_request) : nat :=
  match qs with
  | [] => 0
  | q :: qs' =>
      ((if is_store_call srv q then 1 else 0)
       + store_calls (serve uuidv4 jsf_resolve srv q).1 qs')%nat
  end.

End ServedRuns.

(** ** A sample contract: the payments API of the documentation *)

Module Samples.

(** A matcher for the sample paths, after the router of Express 4. A
    pattern is read segment by segment. In a segment that begins with a
    colon the longest run of word characters after the colon is the name
    of a parameter and what follows the name is literal text: the
    parameter takes the non-empty text that the request has in front of
    that literal text. Any other segment stands for itself. Literal text
    is compared up to letter case, and the request path may end in one
    more slash than the pattern. The sample patterns have no other
    special character, and the sample paths no percent escape, so that a
    value is bound as it stands. *)
Fixpoint split_slash (current : string) (s : string) : list string :=
  match s with
  | EmptyString => [current]
  | String c s' =>
      if Ascii.eqb c "/" then current :: split_slash "" s'
      else split_slash (current +:+ String c "") s'
  end.

Definition segments (s : string) : list string := split_slash "" s.

(** [\w]: a letter, a digit or the underscore. *)
Definition word_char (c : ascii) : bool :=
  let n := nat_of_ascii c in
  ((48 <=? n) && (n <=? 57) || (65 <=? n) && (n <=? 90)
   || (97 <=? n) && (n <=? 122) || (n =? 95))%nat.

(** The longest run of word characters at the head, and the rest. *)
Fixpoint span_word (s : string) : string * string :=
  match s with
  | EmptyString => ("", "")
  | String c s' =>
      if word_char c then (String c (span_word s').1, (span_word s').2)
      else ("", s)
  end.

(** What [u] has in front of [suffix], when it ends in [suffix]. *)
Fixpoint strip_suffix (suffix u : string) : option string :=
  if String.eqb (toLowerCase u) (toLowerCase suffix) then Some ""
  else match u with
       | EmptyString => None
       | String c u' => String c <$> strip_suffix suffix u'
       end.

Definition literal_segment (p u : string) : bool :=
  String.eqb (toLowerCase p) (toLowerCase u).

Fixpoint match_segments (pat url : list string) (params : gmap string string)
  : option (gmap string string) :=
  match pat, url with
  | [], [] => Some params
  | [], [u] => if String.eqb u "" then Some params else None
  | p :: pat', u :: url' =>
      match p with
      | String ":" rest =>
          let '(name, suffix) := span_word rest in
          if String.eqb name "" then
            if literal_segment p u then match_segments pat' url' params
            else None
          else
            match strip_suffix suffix u with
            | Some (String c v) =>
                match_segments pat' url' (<[name := String c v]> params)
            | _ => None
            end
      | _ =>
          if literal_segment p u then match_segments pat' url' params
          else None
      end
  | _, _ => None
  end.

(** A route takes the requests of its own method, and a route for GET
    also those of HEAD. *)
Definition takes_method (verb method : string) : bool :=
  let name := toLowerCase method in
  String.eqb verb name || (String.eqb name "head" && String.eqb verb "get").

(** The message stands in for the parser's, whose text varies with the
    body and with the runtime. *)
#[export] Instance sample_express : Express := {|
  express_match verb pat method url :=
    if takes_method verb method
    then match_segments (segments pat) (segments url) ∅
    else None;
  syntax_error_message _ := "Unexpected token in JSON at position 0"
|}.

Definition sample_uuid (n : nat) : string := "ref-" +:+ pretty n.

Definition sample_jsf (n : nat) (sch : value) : value :=
  VObj [("generated", VNum (Z.of_nat n))].

Definition payment : value :=
  VObj [("amount", VNum 100); ("currency", VStr "USD")].

Definition created_example : value :=
  VObj [("reference", VStr ""); ("status", VStr "pending")].

Definition object_schema : value := VObj [("type", VStr "object")].

(** [POST /payments], [x-mock-store: { referenceField: reference }]. *)
Definition post_payment : operation :=
  Operation None (Some (MockStore (Some "reference")))
    (Some {[ "201" := ResponseDef (Some (MediaType created_example object_schema)) ]}).

(** [GET /payments/{reference}], [x-mock-retrieve: { param: reference }]. *)
Definition get_payment : operation :=
  Operation (Some (MockRetrieve "reference")) None
    (Some {[ "200" := ResponseDef (Some (MediaType VUndefined object_schema));
             "404" := ResponseDef None ]}).

(** [GET /payments/summary], no annotation. *)
Definition get_summary : operation :=
  Operation None None
    (Some {[ "200" := ResponseDef (Some (MediaType (VObj [("total", VNum 3)]) VUndefined)) ]}).

(** An operation that carries both annotations. *)
Definition dual_payment : operation :=
  Operation (Some (MockRetrieve "reference")) (Some (MockStore (Some "reference")))
    (Some {[ "200" := ResponseDef (Some (MediaType created_example object_schema)) ]}).

Definition banking : contract :=
  Contract [("/payments", [("post", post_payment)]);
            ("/payments/{reference}", [("get", get_payment)])].

Definition banking_routes : list route :=
  [Route "post" "/payments" "/payments" "post" post_payment;
   Route "get" "/payments/:reference" "/payments/{reference}" "get" get_payment].

Definition banking_server : server :=
  Server banking_routes (initial_state ∅).

Definition dual_contract : contract :=
  Contract [("/payments/{reference}", [("put", dual_payment)])].

Definition post_request (b : wire_body) : http_request :=
  HttpRequest "POST" "/payments" {[ "x-mock-response" := "201" ]} b.

Definition get_request (reference : string) : http_request :=
  HttpRequest "GET" ("/payments/" +:+ reference) ∅ NoBody.

(** A static table that fixes the answer of both payment operations. *)
Definition accepted : static_entry :=
  StaticEntry (VNum 202) (VObj [("status", VStr "accepted")]).

Definition teapot : static_entry :=
  StaticEntry (VNum 418) (VObj [("error", VStr "teapot")]).

Definition sample_statics : static_table :=
  {[ "/payments" := {[ "POST" := accepted ]};
     "/payments/{reference}" := {[ "GET" := teapot ]} ]}.

(** [GET /payments/summary] declared after [GET /payments/{reference}]. *)
Definition shadowed : contract :=
  Contract [("/payments/{reference}", [("get", get_payment)]);
            ("/payments/summary", [("get", get_summary)])].

(** An operation that declares 201 and 404 but not 200. *)
Definition create_only : operation :=
  Operation None None
    (Some {[ "201" := ResponseDef (Some (MediaType created_example VUndefined));
             "404" := ResponseDef None ]}).

(** [GET /flag]: the example of status 200 is the literal [false]. *)
Definition boolean_schema : value := VObj [("type", VStr "boolean")].

Definition get_flag : operation :=
  Operation None None
    (Some {[ "200" := ResponseDef (Some (MediaType (VBool false) boolean_schema)) ]}).

Definition get_flag_no_schema : operation :=
  Operation None None
    (Some {[ "200" := ResponseDef (Some (MediaType (VBool false) VUndefined)) ]}).

(** What a handler receives for a request without body and without
    headers of interest. *)
Definition bare_request : request := Request ∅ ∅ (VObj []).

(** What a handler receives once the router has bound [reference]. *)
Definition reference_request (reference : string) : request :=
  Request ∅ {[ "reference" := reference ]} (VObj []).

Definition summary_request : http_request :=
  HttpRequest "GET" "/payments/summary" ∅ NoBody.

(** A retrieve annotation that names [id] on a path whose placeholder is
    [reference]. *)
Definition misnamed_payment : operation :=
  Operation (Some (MockRetrieve "id")) None None.

Definition misnamed_routes : list route :=
  [operation_route "/payments/{reference}" ("get", misnamed_payment)].

(** A path item with path-level [parameters] after its operation. *)
Definition annexed : contract :=
  Contract [("/payments", [("post", post_payment)]);
            ("/payments/{reference}",
             [("get", get_payment); ("parameters", get_payment)])].

(** A course form after three topics were added. *)
Definition three_topics : Forms.course_form :=
  Forms.addTopic "c" (Forms.addTopic "b" (Forms.addTopic "a" Forms.empty_form)).

(** The routes of a contract without annotations. *)
Definition summary_routes : list route :=
  [operation_route "/payments/summary" ("get", get_summary);
   operation_route "/flag" ("get", get_flag)].

End Samples.

(** ** Properties *)

Section FirstExamples.

Import Samples.

Example parseInt_200 : parseInt "200" = VNum 200.
Proof. reflexivity. Qed.

Example parseInt_default : parseInt "default" = VNaN.
Proof. reflexivity. Qed.

Example parseInt_2XX : parseInt "2XX" = VNum 2.
Proof. reflexivity. Qed.

Example toUpperCase_get : toUpperCase "get" = "GET".
Proof. reflexivity. Qed.

Example route_pattern_reference :
  route_pattern "/payments/{reference}" = "/payments/:reference".
Proof. reflexivity. Qed.

Example start_banking :
  startServer (Loaded banking) None = inr banking_server.
Proof. reflexivity. Qed.

(** The two scenarios of the documentation: submit a payment, fetch it
    back, fetch an unknown reference. *)
Example banking_scenario :
  (serve_all sample_uuid sample_jsf banking_server
     [post_request (JsonText payment);
      get_request "ref-0";
      get_request "invalid-reference"]).2
  = [Some (Response (VNum 201)
             (VObj [("reference", VStr "ref-0"); ("status", VStr "pending")]));
     Some (Response (VNum 200) payment);
     Some not_found].
Proof. vm_compute. reflexivity. Qed.

End FirstExamples.

(** *** The three shapes of a handler run *)

Lemma generated_is_sent jsf_resolve path method op statics requested n :
  ∃ s b, gen_response (generateResponse jsf_resolve path method op statics
                         requested n) = Response s b.
Proof.
  unfold generateResponse.
  destruct (static_lookup _ _ _); [by eexists _, _|].
  destruct (_ !! _) as [d|].
  - destruct (truthy _); [by eexists _, _|].
    destruct (truthy _); by eexists _, _.
  - destruct (inherited_key _); by eexists _, _.
Qed.

Section HandlerFacts.

Variable uuidv4 : nat -> string.
Variable jsf_resolve : nat -> value -> value.

Local Abbreviation handle := (handler uuidv4 jsf_resolve).
Local Abbreviation generate := (generateResponse jsf_resolve).

(** A retrieve-annotated operation answers from the store and returns. *)
Lemma handler_retrieve path method op r st req :
  x_mock_retrieve op = Some r ->
  handle path method op st req =
    (st, op,
     if truthy (store_get (dataStore st) (req_params req !! param r))
     then Response (VNum 200) (store_get (dataStore st) (req_params req !! param r))
     else not_found).
Proof.
  intros Hr. unfold handler. rewrite Hr.
  destruct (truthy _); reflexivity.
Qed.

(** Without either annotation the generated response goes out as it is. *)
Lemma handler_plain path method op st req :
  x_mock_retrieve op = None ->
  x_mock_store op = None ->
  handle path method op st req =
    let g := generate path method op (staticResponses st)
               (requested_status req) (jsf_calls st) in
    (State (dataStore st) (staticResponses st) (uuid_calls st) (gen_jsf_calls g),
     op, gen_response g).
Proof.
  intros Hr Hs. unfold handler. rewrite Hr, Hs. reflexivity.
Qed.

(** The whole outcome of a store step, with the place that the assigned
    body is written back to. *)
Lemma handler_store_outcome path method op s st req :
  x_mock_retrieve op = None ->
  x_mock_store op = Some s ->
  let g := generate path method op (staticResponses st)
             (requested_status req) (jsf_calls st) in
  let reference := uuidv4 (uuid_calls st) in
  let stored := <[reference := req_body req]> (dataStore st) in
  handle path method op st req =
    match (if truthy (body (gen_response g)) then usable_field s else None) with
    | Some field =>
        match assign_prop (body (gen_response g)) field reference with
        | Some b =>
            (State stored
                   (match gen_origin g with
                    | InStaticTable =>
                        write_back_static path method b (staticResponses st)
                    | _ => staticResponses st
                    end)
                   (S (uuid_calls st)) (gen_jsf_calls g),
             match gen_origin g with
             | InExample key => write_back_example key b op
             | _ => op
             end,
             Response (status (gen_response g)) b)
        | None =>
            (State stored (staticResponses st) (S (uuid_calls st))
                   (gen_jsf_calls g),
             op, Unanswered)
        end
    | None =>
        (State stored (staticResponses st) (S (uuid_calls st)) (gen_jsf_calls g),
         op, gen_response g)
    end.
Proof.
  intros Hr Hs. cbv zeta. unfold handler. rewrite Hr, Hs.
  destruct (if truthy _ then usable_field s else None) as [field|]; [|done].
  destruct (assign_prop _ _ _) as [b|]; [|done].
  by destruct (gen_origin _).
Qed.

(** The store step: what is kept, and what is passed to [res]. *)
Lemma handler_store path method op s st req :
  x_mock_retrieve op = None ->
  x_mock_store op = Some s ->
  let g := generate path method op (staticResponses st)
             (requested_status req) (jsf_calls st) in
  let reference := uuidv4 (uuid_calls st) in
  let out := handle path method op st req in
  dataStore out.1.1 = <[reference := req_body req]> (dataStore st)
  ∧ uuid_calls out.1.1 = S (uuid_calls st)
  ∧ jsf_calls out.1.1 = gen_jsf_calls g
  ∧ out.2 = stored_response s reference (gen_response g).
Proof.
  intros Hr Hs. cbv zeta.
  rewrite (handler_store_outcome _ _ _ s) by done. cbv zeta.
  unfold stored_response, with_reference.
  destruct (generated_is_sent jsf_resolve path method op (staticResponses st)
              (requested_status req) (jsf_calls st)) as (sg & bg & Hg).
  rewrite Hg. simpl.
  destruct (if truthy bg then usable_field s else None) as [field|]; [|done].
  by destruct (assign_prop _ _ _).
Qed.

(** Only a store step touches the store or draws an identifier. *)
Lemma handler_keeps_store path method op st req :
  x_mock_store op = None ∨ is_Some (x_mock_retrieve op) ->
  dataStore (handle path method op st req).1.1 = dataStore st
  ∧ uuid_calls (handle path method op st req).1.1 = uuid_calls st.
Proof.
  intros [Hs | [r Hr]].
  - destruct (x_mock_retrieve op) as [r|] eqn:Hr.
    + rewrite (handler_retrieve _ _ _ r) by done. done.
    + rewrite handler_plain by done. done.
  - rewrite (handler_retrieve _ _ _ r) by done. done.
Qed.

(** The annotations of an operation survive every run of its handler. *)
Lemma handler_keeps_annotations path method op st req :
  x_mock_retrieve (handle path method op st req).1.2 = x_mock_retrieve op
  ∧ x_mock_store (handle path method op st req).1.2 = x_mock_store op.
Proof.
  destruct (x_mock_retrieve op) as [r|] eqn:Hr.
  { by rewrite (handler_retrieve _ _ _ r). }
  destruct (x_mock_store op) as [s|] eqn:Hs.
  2: { by rewrite handler_plain. }
  rewrite (handler_store_outcome _ _ _ s) by done. cbv zeta.
  destruct (if truthy _ then usable_field s else None); [|done].
  destruct (assign_prop _ _ _); [|done].
  by destruct (gen_origin _).
Qed.

End HandlerFacts.

(** *** The linkage store along a run *)

Section StoreFacts.

Variable uuidv4 : nat -> string.
Variable jsf_resolve : nat -> value -> value.

(** The guarantee of the [uuid] package: no identifier comes twice. *)
Hypothesis uuidv4_distinct : Inj (=) (=) uuidv4.

Local Abbreviation handle := (handler uuidv4 jsf_resolve).
Local Abbreviation step := (step uuidv4 jsf_resolve).
Local Abbreviation reachable := (reachable uuidv4 jsf_resolve).
Local Abbreviation issued_only := (issued_only uuidv4).

(** A step either leaves store and counter alone or files one body
    under the next identifier. *)
Lemma step_cases st st' :
  step st st' ->
  (dataStore st' = dataStore st ∧ uuid_calls st' = uuid_calls st)
  ∨ (∃ b, dataStore st' = <[uuidv4 (uuid_calls st) := b]> (dataStore st)
          ∧ uuid_calls st' = S (uuid_calls st)).
Proof.
  intros [path method op st0 req].
  destruct (x_mock_retrieve op) as [r|] eqn:Hr.
  - left. apply handler_keeps_store. right. by exists r.
  - destruct (x_mock_store op) as [s|] eqn:Hs.
    + right. exists (req_body req).
      destruct (handler_store uuidv4 jsf_resolve path method op s st0 req Hr Hs)
        as (Hd & Hc & _). done.
    + left. apply handler_keeps_store. by left.
Qed.

Lemma step_calls_mono st st' : step st st' -> (uuid_calls st <= uuid_calls st')%nat.
Proof. intros H. destruct (step_cases _ _ H) as [[_ ->] | (b & _ & ->)]; lia. Qed.

Lemma reachable_calls_mono st st' :
  reachable st st' -> (uuid_calls st <= uuid_calls st')%nat.
Proof.
  induction 1 as [|st mid st' Hstep _ IH]; [lia|].
  apply step_calls_mono in Hstep. lia.
Qed.

(** An entry filed under an identifier already drawn is never replaced. *)
Lemma step_keeps_entry n st st' :
  step st st' -> (n < uuid_calls st)%nat ->
  dataStore st' !! uuidv4 n = dataStore st !! uuidv4 n.
Proof.
  intros H Hn. destruct (step_cases _ _ H) as [[-> _] | (b & -> & _)]; [done|].
  apply lookup_insert_ne. intros Heq. apply uuidv4_distinct in Heq. lia.
Qed.

Lemma reachable_keeps_entry n st st' :
  reachable st st' -> (n < uuid_calls st)%nat ->
  dataStore st' !! uuidv4 n = dataStore st !! uuidv4 n.
Proof.
  induction 1 as [|st mid st' Hstep _ IH]; [done|]. intros Hn.
  rewrite IH by (apply step_calls_mono in Hstep; lia).
  by apply step_keeps_entry.
Qed.

Lemma initial_issued_only statics : issued_only (initial_state statics).
Proof. intros k [v Hv]. simpl in Hv. by rewrite lookup_empty in Hv. Qed.

Lemma step_issued_only st st' : step st st' -> issued_only st -> issued_only st'.
Proof.
  intros H Hinv k Hk.
  destruct (step_cases _ _ H) as [[Hd Hc] | (b & Hd & Hc)]; rewrite Hc.
  - rewrite Hd in Hk. exact (Hinv k Hk).
  - rewrite Hd in Hk. destruct (decide (uuidv4 (uuid_calls st) = k)) as [<-|Hne].
    + exists (uuid_calls st). split; [lia|done].
    + rewrite lookup_insert_ne in Hk by done.
      destruct (Hinv k Hk) as (i & Hi & ->). exists i. split; [lia|done].
Qed.

Lemma reachable_issued_only st st' :
  reachable st st' -> issued_only st -> issued_only st'.
Proof. induction 1; eauto using step_issued_only. Qed.

(** The next identifier is not yet a key of the store. *)
Lemma next_reference_fresh st :
  issued_only st -> dataStore st !! uuidv4 (uuid_calls st) = None.
Proof.
  intros Hinv. destruct (dataStore st !! _) as [v|] eqn:Hv; [|done].
  destruct (Hinv _ (mk_is_Some _ _ Hv)) as (i & Hi & Heq).
  apply uuidv4_distinct in Heq. lia.
Qed.

(** A later retrieval of an identifier drawn earlier reads the entry that
    was filed under it. *)
Lemma retrieve_after n st st' path method op r req :
  reachable st st' -> (n < uuid_calls st)%nat ->
  x_mock_retrieve op = Some r ->
  req_params req !! param r = Some (uuidv4 n) ->
  (handle path method op st' req).2 =
    let data := default VUndefined (dataStore st !! uuidv4 n) in
    if truthy data then Response (VNum 200) data else not_found.
Proof.
  intros Hreach Hn Hr Hp.
  rewrite (handler_retrieve _ _ _ _ _ r) by done. simpl.
  rewrite Hp. unfold store_get. simpl.
  by rewrite (reachable_keeps_entry n st st').
Qed.

End StoreFacts.

(** *** Response resolution *)

Lemma inherited_key_200 : inherited_key "200" = false.
Proof. reflexivity. Qed.

(** Without an inherited name in play, the selected status is the
    requested one when declared and "200" otherwise. *)
Lemma selected_status_own op requested :
  inherited_key requested = false ->
  selected_status op requested
  = match default ∅ (responses op) !! requested with
    | Some _ => requested
    | None => "200"
    end.
Proof.
  intros Hinh. unfold selected_status. rewrite Hinh.
  case_decide as Hd.
  - by destruct Hd as [d ->].
  - destruct (_ !! requested) eqn:E; [|done]. exfalso. apply Hd. by eexists.
Qed.

Section ResolutionFacts.

Variable uuidv4 : nat -> string.
Variable jsf_resolve : nat -> value -> value.

Local Abbreviation handle := (handler uuidv4 jsf_resolve).
Local Abbreviation generate := (generateResponse jsf_resolve).

Lemma generate_static path method op statics requested n e :
  static_lookup statics path method = Some e ->
  generate path method op statics requested n =
    Generated (Response (static_status e) (static_body e)) InStaticTable n.
Proof. intros He. unfold generateResponse. by rewrite He. Qed.

Lemma generate_undeclared path method op statics requested n :
  static_lookup statics path method = None ->
  default ∅ (responses op) !! selected_status op requested = None ->
  inherited_key (selected_status op requested) = false ->
  generate path method op statics requested n =
    Generated (no_response_defined (selected_status op requested)) Fresh n.
Proof.
  intros Hst Hnone Hinh. unfold generateResponse. rewrite Hst.
  by rewrite Hnone, Hinh.
Qed.

(** A status name inherited from [Object.prototype] reads as a response
    definition without content. *)
Lemma generate_inherited path method op statics requested n :
  static_lookup statics path method = None ->
  default ∅ (responses op) !! selected_status op requested = None ->
  inherited_key (selected_status op requested) = true ->
  generate path method op statics requested n =
    Generated (Response (parseInt (selected_status op requested)) (VObj []))
              Fresh n.
Proof.
  intros Hst Hnone Hinh. unfold generateResponse. rewrite Hst.
  by rewrite Hnone, Hinh.
Qed.

(** Example first, then schema, then the empty object: each test is a
    truthiness test. *)
Lemma generate_declared path method op statics requested n d :
  static_lookup statics path method = None ->
  default ∅ (responses op) !! selected_status op requested = Some d ->
  let key := selected_status op requested in
  let ex := from_option example VUndefined (json_content d) in
  let sch := from_option schema VUndefined (json_content d) in
  generate path method op statics requested n =
    if truthy ex then Generated (Response (parseInt key) ex) (InExample key) n
    else if truthy sch
         then Generated (Response (parseInt key) (jsf_resolve n sch)) Fresh (S n)
         else Generated (Response (parseInt key) (VObj [])) Fresh n.
Proof.
  intros Hst Hd. cbv zeta. unfold generateResponse. rewrite Hst. by rewrite Hd.
Qed.

(** For an operation without annotations and without static entry, a
    truthy example of the selected status is the body sent, a schema
    beside it or not, and nothing changes. *)
Lemma truthy_example_returned path method op st req d m :
  x_mock_retrieve op = None ->
  x_mock_store op = None ->
  static_lookup (staticResponses st) path method = None ->
  default ∅ (responses op) !! selected_status op (requested_status req) = Some d ->
  json_content d = Some m ->
  truthy (example m) = true ->
  handle path method op st req
  = (st, op, Response (parseInt (selected_status op (requested_status req)))
                      (example m)).
Proof.
  intros Hr Hs Hst Hd Hm Hex. rewrite handler_plain by done.
  rewrite (generate_declared _ _ _ _ _ _ d Hst Hd). cbv zeta.
  rewrite Hm. simpl. rewrite Hex. simpl. by destruct st.
Qed.

(** What an operation without retrieve annotation passes to [res]. *)
Lemma handler_response path method op st req :
  x_mock_retrieve op = None ->
  let g := generate path method op (staticResponses st)
             (requested_status req) (jsf_calls st) in
  (handle path method op st req).2 =
    match x_mock_store op with
    | None => gen_response g
    | Some s => stored_response s (uuidv4 (uuid_calls st)) (gen_response g)
    end.
Proof.
  intros Hr. cbv zeta. destruct (x_mock_store op) as [s|] eqn:Hs.
  - by destruct (handler_store uuidv4 jsf_resolve path method op s st req Hr Hs)
      as (_ & _ & _ & ->).
  - by rewrite handler_plain.
Qed.

Lemma static_lookup_write_back path method b statics e :
  static_lookup statics path method = Some e ->
  static_lookup (write_back_static path method b statics) path method
  = Some (set_static_body b e).
Proof.
  unfold static_lookup, write_back_static. intros He.
  rewrite lookup_alter_eq.
  destruct (statics !! path) as [by_method|]; simpl in *; [|done].
  by rewrite lookup_alter_eq, He.
Qed.

(** C2 (amended). For a retrieve-annotated operation the retrieval comes
    first: the response is the stored payload with status 200 when the
    value read from the store is truthy and 404 "Not found" otherwise,
    nothing changes, and the static table is never consulted, whatever
    entry it holds for the operation's path and method. *)
Theorem retrieval_precedes_static_override path method op r st req :
  x_mock_retrieve op = Some r ->
  let data := store_get (dataStore st) (req_params req !! param r) in
  handle path method op st req
    = (st, op, if truthy data then Response (VNum 200) data else not_found)
  ∧ ∀ statics',
      (handle path method op
         (State (dataStore st) statics' (uuid_calls st) (jsf_calls st)) req).2
      = (handle path method op st req).2.
Proof.
  intros Hr data. split.
  - by apply handler_retrieve.
  - intros statics'. by rewrite !(handler_retrieve _ _ _ _ _ r).
Qed.

(** C3 (amended). For an operation without a retrieve annotation that
    has a static entry: without a store annotation the response is the
    entry's status and body as they are and nothing changes; with a store
    annotation what is passed on is the entry's status with the entry's
    body after the store step, which assigns the new reference under
    [referenceField] when that is set and the body is truthy, the way
    JavaScript assigns ([assign_prop]); when that assignment throws,
    nothing is sent. Schemas and examples play no part. *)
Theorem static_override_response path method op e st req :
  x_mock_retrieve op = None ->
  static_lookup (staticResponses st) path method = Some e ->
  let out := handle path method op st req in
  match x_mock_store op with
  | None => out = (st, op, Response (static_status e) (static_body e))
  | Some s =>
      out.2 = stored_response s (uuidv4 (uuid_calls st))
                (Response (static_status e) (static_body e))
  end.
Proof.
  intros Hr He out. subst out.
  destruct (x_mock_store op) as [s|] eqn:Hs.
  - destruct (handler_store uuidv4 jsf_resolve path method op s st req Hr Hs)
      as (_ & _ & _ & ->).
    by rewrite (generate_static _ _ _ _ _ _ e He).
  - rewrite handler_plain by done. simpl.
    rewrite (generate_static _ _ _ _ _ _ e He). simpl. by destruct st.
Qed.

(** X18. The body of a static entry is the very object that the store
    step assigns to: after the call the table holds, for that path and
    method, the body as the assignment left it (as it was, when the
    assignment threw or was not made). *)
Theorem store_step_rewrites_static_entry path method op s e st req :
  x_mock_retrieve op = None ->
  x_mock_store op = Some s ->
  static_lookup (staticResponses st) path method = Some e ->
  static_lookup (staticResponses (handle path method op st req).1.1) path method
  = Some (StaticEntry (static_status e)
            (default (static_body e)
               (with_reference s (uuidv4 (uuid_calls st)) (static_body e)))).
Proof.
  intros Hr Hs He. rewrite (handler_store_outcome _ _ _ _ _ s) by done.
  cbv zeta. unfold with_reference.
  rewrite (generate_static _ _ _ _ _ _ e He). simpl.
  destruct (if truthy (static_body e) then usable_field s else None)
    as [field|]; simpl.
  - destruct (assign_prop _ _ _) as [b|]; simpl.
    + by apply static_lookup_write_back.
    + by destruct e.
  - by destruct e.
Qed.

(** C4 (amended). Without retrieve annotation and static entry, and for
    a requested status that is no name inherited from [Object.prototype],
    the status resolved is: the requested status when it is declared;
    otherwise 200 when 200 is declared; otherwise 500, the generated
    response being the error "No response defined for status 200". What
    is passed to [res] is the generated response, after the store step
    when the operation stores. *)
Theorem status_selection path method op st req :
  x_mock_retrieve op = None ->
  static_lookup (staticResponses st) path method = None ->
  inherited_key (requested_status req) = false ->
  let declared := default ∅ (responses op) in
  let requested := requested_status req in
  let g := generate path method op (staticResponses st) requested
             (jsf_calls st) in
  status (gen_response g) =
    match declared !! requested, declared !! "200" with
    | Some _, _ => parseInt requested
    | None, Some _ => VNum 200
    | None, None => VNum 500
    end
  ∧ (handle path method op st req).2 =
      match x_mock_store op with
      | None => gen_response g
      | Some s => stored_response s (uuidv4 (uuid_calls st)) (gen_response g)
      end
  ∧ (declared !! requested = None -> declared !! "200" = None ->
     gen_response g = no_response_defined "200").
Proof.
  intros Hr Hst Hinh declared requested g.
  pose proof (selected_status_own op requested Hinh) as Hsel. fold declared in Hsel.
  assert (Hstatus : ∀ g1 g2 g3 : generated, ∀ b1 b2 : bool, ∀ v,
            status (gen_response g1) = v ->
            status (gen_response g2) = v ->
            status (gen_response g3) = v ->
            status (gen_response (if b1 then g1 else if b2 then g2 else g3)) = v)
    by (intros ? ? ? [] [] ?; auto).
  split; [|split].
  - subst g.
    destruct (declared !! selected_status op requested) as [d|] eqn:Hd.
    + rewrite (generate_declared _ _ _ _ _ _ d Hst Hd). cbv zeta.
      rewrite (Hstatus _ _ _ _ _ (parseInt (selected_status op requested)))
        by reflexivity.
      rewrite Hsel in *. destruct (declared !! requested); [done|].
      by rewrite Hd.
    + assert (Hsel200 : selected_status op requested = "200").
      { rewrite Hsel in *.
        destruct (declared !! requested) eqn:E; [congruence|done]. }
      rewrite generate_undeclared; [|done|done|by rewrite Hsel200].
      simpl. rewrite Hsel200 in Hd.
      destruct (declared !! requested) eqn:E.
      * rewrite Hsel in Hsel200. subst requested. congruence.
      * by rewrite Hd.
  - by apply handler_response.
  - intros Hreq H200. subst g. rewrite Hreq in Hsel.
    rewrite generate_undeclared; rewrite ?Hsel; done.
Qed.

End ResolutionFacts.

(** *** Registration and dispatch *)

Lemma register_methods_verbs path methods app :
  Forall (λ entry : string * operation,
            is_express_verb (toLowerCase entry.1) = true) methods ->
  register_methods path methods app
  = inr (app ++ map (operation_route path) methods)%list.
Proof.
  intros Hall. revert app.
  induction Hall as [|[method op] rest Hverb _ IH]; intros app; simpl.
  - by rewrite app_nil_r.
  - simpl in Hverb. rewrite Hverb, IH, <- app_assoc. done.
Qed.

Lemma register_paths_verbs ps app :
  Forall (λ item : string * list (string * operation),
            Forall (λ entry : string * operation,
                      is_express_verb (toLowerCase entry.1) = true) item.2) ps ->
  register_paths ps app
  = inr (app ++ flat_map (λ item, map (operation_route item.1) item.2) ps)%list.
Proof.
  intros Hall. revert app.
  induction Hall as [|[path methods] rest Hitem _ IH]; intros app; simpl.
  - by rewrite app_nil_r.
  - rewrite register_methods_verbs by done. rewrite IH, <- app_assoc. done.
Qed.

(** A key that is no verb stops the registration: the server does not
    start. *)
Lemma register_methods_other_key path method op rest app :
  is_express_verb (toLowerCase method) = false ->
  register_methods path ((method, op) :: rest) app = inl (NotAFunction path method).
Proof. intros H. simpl. by rewrite H. Qed.

(** C5 (amended). Registration does not look at the annotations: for a
    contract whose path-item keys are all HTTP verbs the server starts
    with one route per declared operation, in document order, whether or
    not some operation carries both the store and the retrieve
    annotation. *)
Theorem registration_ignores_annotations c table :
  verbs_only c ->
  startServer (Loaded c) (Some (Loaded table))
    = inr (Server (contract_routes c) (initial_state table))
  ∧ startServer (Loaded c) None
    = inr (Server (contract_routes c) (initial_state ∅)).
Proof.
  intros Hverbs. unfold startServer, contract_routes.
  by rewrite (register_paths_verbs (paths c) []).
Qed.

Section RouterFacts.

Context `{Express}.

Lemma find_route_skip before rs q :
  Forall (λ r, route_match r q = None) before ->
  find_route (before ++ rs)%list q
  = (λ '(i, r, ps), ((length before + i)%nat, r, ps)) <$> find_route rs q.
Proof.
  induction 1 as [|r before Hr _ IH]; simpl.
  - by destruct (find_route rs q) as [[[i r] ps]|].
  - rewrite Hr, IH. by destruct (find_route rs q) as [[[i r'] ps]|].
Qed.

(** C6 (amended). Of two routes that both match a request, the one
    registered first handles it, and registration follows the order of
    declaration in the contract: the literal route is selected when it is
    declared before the parameterized one, the parameterized route when it
    is declared before the literal one. *)
Theorem first_declared_route_wins literal parameterized q before between after
    ps_literal ps_parameterized :
  Forall (λ r, route_match r q = None) before ->
  route_match literal q = Some ps_literal ->
  route_match parameterized q = Some ps_parameterized ->
  find_route (before ++ literal :: between ++ parameterized :: after)%list q
    = Some (length before, literal, ps_literal)
  ∧ find_route (before ++ parameterized :: between ++ literal :: after)%list q
    = Some (length before, parameterized, ps_parameterized).
Proof.
  intros Hbefore Hl Hp.
  rewrite !find_route_skip by done. simpl. rewrite Hl, Hp. simpl.
  by rewrite Nat.add_0_r.
Qed.

Lemma find_route_lookup rs q i r ps :
  find_route rs q = Some (i, r, ps) ->
  rs !! i = Some r ∧ route_match r q = Some ps.
Proof.
  revert i. induction rs as [|r0 rs IH]; intros i; simpl; [done|].
  destruct (route_match r0 q) as [ps0|] eqn:Hm.
  - intros [= <- <- <-]. done.
  - destruct (find_route rs q) as [[[j r'] ps']|]; simpl; [|done].
    intros [= <- <- <-]. by apply IH.
Qed.

Lemma routes_alter_same (rs : list route) (i : nat) r :
  rs !! i = Some r -> alter (set_operation (r_operation r)) i rs = rs.
Proof.
  intros Hi. apply list_eq. intros j. destruct (decide (i = j)) as [<-|Hne].
  - rewrite list_lookup_alter_eq, Hi. simpl. by destruct r.
  - by rewrite list_lookup_alter_ne.
Qed.

(** What the body parser lets through is an object or an array. *)
Lemma express_json_truthy b v : express_json b = inr v -> truthy v = true.
Proof.
  destruct b as [|w|]; simpl; [by intros [= <-]| |done].
  destruct w; try done; by intros [= <-].
Qed.

Lemma express_json_refuses v :
  truthy v = false ->
  express_json (JsonText v)
  = inl (HttpError (VNum 400) (syntax_error_message (JsonText v)) VUndefined).
Proof. by destruct v. Qed.

Section Served.

Variable uuidv4 : nat -> string.
Variable jsf_resolve : nat -> value -> value.

Local Abbreviation handle := (handler uuidv4 jsf_resolve).
Local Abbreviation serve_one := (serve uuidv4 jsf_resolve).
Local Abbreviation serve_run := (serve_all uuidv4 jsf_resolve).
Local Abbreviation reachable := (reachable uuidv4 jsf_resolve).

(** The state after one request: that of the handler which took it, or
    the state before. *)
Lemma serve_mem srv q :
  mem (serve_one srv q).1
  = match express_json (http_body q), find_route (routes srv) q with
    | inr parsed, Some (_, r, ps) =>
        (handle (r_path r) (r_method r) (r_operation r) (mem srv)
           (Request (http_headers q) ps parsed)).1.1
    | _, _ => mem srv
    end.
Proof.
  unfold serve. destruct (express_json _) as [err|parsed]; [done|].
  destruct (find_route _ _) as [[[i r] ps]|]; [|done].
  by destruct (handler _ _ _ _ _ _ _) as [[st' op'] resp].
Qed.

Lemma serve_handled srv q parsed i r ps :
  express_json (http_body q) = inr parsed ->
  find_route (routes srv) q = Some (i, r, ps) ->
  (serve_one srv q).2
  = Some (handle (r_path r) (r_method r) (r_operation r) (mem srv)
            (Request (http_headers q) ps parsed)).2.
Proof.
  intros Hb Hf. unfold serve. rewrite Hb, Hf.
  by destruct (handler _ _ _ _ _ _ _) as [[st' op'] resp].
Qed.

(** A body that the parser refuses is answered by the error middleware,
    before any route and without any change. *)
Lemma serve_refused srv q err :
  express_json (http_body q) = inl err ->
  serve_one srv q = (srv, validation_error_handler err).
Proof. intros Hb. unfold serve. by rewrite Hb. Qed.

(** Every request served is one step of the state, or none. *)
Lemma serve_reachable srv q : reachable (mem srv) (mem (serve_one srv q).1).
Proof.
  rewrite serve_mem. destruct (express_json _); [apply rtc_refl|].
  destruct (find_route _ _) as [[[i r] ps]|]; [|apply rtc_refl].
  apply rtc_once. constructor.
Qed.

Lemma serve_all_reachable qs srv : reachable (mem srv) (mem (serve_run srv qs).1).
Proof.
  revert srv. induction qs as [|q qs IH]; intros srv; simpl; [apply rtc_refl|].
  destruct (serve_one srv q) as [srv1 r] eqn:E1.
  destruct (serve_run srv1 qs) as [srv2 rs] eqn:E2. simpl.
  eapply rtc_trans.
  - pose proof (serve_reachable srv q) as Hq. by rewrite E1 in Hq.
  - pose proof (IH srv1) as Hqs. by rewrite E2 in Hqs.
Qed.

(** A request to a retrieve-annotated operation: the answer, and no
    change. *)
Lemma serve_retrieve srv q parsed i r ps ret :
  express_json (http_body q) = inr parsed ->
  find_route (routes srv) q = Some (i, r, ps) ->
  x_mock_retrieve (r_operation r) = Some ret ->
  serve_one srv q
  = (srv, Some (if truthy (store_get (dataStore (mem srv)) (ps !! param ret))
                then Response (VNum 200)
                       (store_get (dataStore (mem srv)) (ps !! param ret))
                else not_found)).
Proof.
  intros Hb Hf Hret. unfold serve. rewrite Hb, Hf.
  rewrite (handler_retrieve _ _ _ _ _ ret) by done. simpl.
  destruct (find_route_lookup _ _ _ _ _ Hf) as [Hi _].
  rewrite routes_alter_same by done. by destruct srv.
Qed.

(** The body parser keeps falsy values out of the store. *)
Lemma serve_payloads srv q :
  payloads_truthy (mem srv) -> payloads_truthy (mem (serve_one srv q).1).
Proof.
  intros Hinv. rewrite serve_mem.
  destruct (express_json _) as [err|parsed] eqn:Hb; [done|].
  destruct (find_route _ _) as [[[i r] ps]|]; [|done].
  destruct (x_mock_retrieve (r_operation r)) as [ret|] eqn:Hr.
  { by rewrite (handler_retrieve _ _ _ _ _ ret). }
  destruct (x_mock_store (r_operation r)) as [s|] eqn:Hs.
  2: { rewrite handler_plain by done. exact Hinv. }
  intros k payload.
  destruct (handler_store uuidv4 jsf_resolve (r_path r) (r_method r)
              (r_operation r) s (mem srv)
              (Request (http_headers q) ps parsed) Hr Hs) as (-> & _).
  simpl. destruct (decide (uuidv4 (uuid_calls (mem srv)) = k)) as [<-|Hne].
  - rewrite lookup_insert_eq. intros [= <-]. by eapply express_json_truthy.
  - rewrite lookup_insert_ne by done. apply Hinv.
Qed.

Lemma serve_all_payloads qs srv :
  payloads_truthy (mem srv) -> payloads_truthy (mem (serve_run srv qs).1).
Proof.
  revert srv. induction qs as [|q qs IH]; intros srv Hinv; simpl; [done|].
  pose proof (serve_payloads srv q Hinv) as H1.
  destruct (serve_one srv q) as [srv1 r]. simpl in H1.
  pose proof (IH srv1 H1) as H2.
  by destruct (serve_run srv1 qs) as [srv2 rs].
Qed.

Lemma started_initial srv : started srv -> ∃ table, mem srv = initial_state table.
Proof.
  intros (spec & statics & Hs). unfold startServer in Hs.
  destruct spec as [c|m]; [|done].
  destruct statics as [[table|m]|]; try done;
    destruct (register_paths _ _); try done;
    injection Hs as <-; by eexists.
Qed.

Lemma started_payloads srv : started srv -> payloads_truthy (mem srv).
Proof.
  intros Hs. destruct (started_initial _ Hs) as [table ->].
  intros k payload. simpl. by rewrite lookup_empty.
Qed.

Lemma started_issued_only srv : started srv -> issued_only uuidv4 (mem srv).
Proof.
  intros Hs. destruct (started_initial _ Hs) as [table ->].
  apply initial_issued_only.
Qed.

(** On a running server a retrieval answers by the presence of the
    entry: every payload in the store is truthy. *)
Lemma serve_retrieve_started srv0 qs q parsed i r ps ret :
  started srv0 ->
  let srv := (serve_run srv0 qs).1 in
  express_json (http_body q) = inr parsed ->
  find_route (routes srv) q = Some (i, r, ps) ->
  x_mock_retrieve (r_operation r) = Some ret ->
  serve_one srv q
  = (srv,
     Some match ps !! param ret ≫= λ reference, dataStore (mem srv) !! reference with
          | Some payload => Response (VNum 200) payload
          | None => not_found
          end).
Proof.
  intros Hstart srv Hb Hf Hret.
  rewrite (serve_retrieve srv q parsed i r ps ret) by done.
  pose proof (serve_all_payloads qs srv0 (started_payloads _ Hstart)) as Hinv.
  fold srv in Hinv. unfold store_get.
  destruct (ps !! param ret) as [reference|]; simpl; [|done].
  destruct (dataStore (mem srv) !! reference) as [payload|] eqn:Hd; simpl; [|done].
  by rewrite (Hinv _ _ Hd).
Qed.


(** C9. An operation that carries both annotations only ever retrieves:
    whatever the request, state and operation are left as they were (no
    body is stored, no identifier is drawn), and the response is that of
    the retrieval rule. On a running server that is status 200 with the
    payload filed under the reference named by the path parameter when
    there is such an entry, and 404 "Not found" when there is none.
    Registration accepts such an operation like any other. *)
Theorem dual_annotation_only_retrieves path method op r s st req :
  x_mock_retrieve op = Some r ->
  x_mock_store op = Some s ->
  let data := store_get (dataStore st) (req_params req !! param r) in
  let out := handler uuidv4 jsf_resolve path method op st req in
  out = (st, op, if truthy data then Response (VNum 200) data else not_found)
  ∧ (∀ reference payload,
       req_params req !! param r = Some reference ->
       dataStore st !! reference = Some payload ->
       truthy payload = true ->
       out = (st, op, Response (VNum 200) payload))
  ∧ ((req_params req !! param r ≫= λ reference, dataStore st !! reference) = None ->
     out = (st, op, not_found))
  ∧ (∀ srv0 qs q parsed i rt ps,
       started srv0 ->
       let srv := (serve_all uuidv4 jsf_resolve srv0 qs).1 in
       express_json (http_body q) = inr parsed ->
       find_route (routes srv) q = Some (i, rt, ps) ->
       r_operation rt = op ->
       serve uuidv4 jsf_resolve srv q
       = (srv,
          Some match ps !! param r ≫= λ reference, dataStore (mem srv) !! reference with
               | Some payload => Response (VNum 200) payload
               | None => not_found
               end))
  ∧ (is_express_verb (toLowerCase method) = true ->
     ∀ table,
       startServer (Loaded (Contract [(path, [(method, op)])])) (Some (Loaded table))
       = inr (Server [operation_route path (method, op)] (initial_state table))).
Proof.
  intros Hr Hs data out. subst out data.
  rewrite (handler_retrieve _ _ _ _ _ r) by done.
  split; [done|]. split; [|split; [|split]].
  - intros reference payload Hp Hd Ht. unfold store_get. rewrite Hp. simpl.
    rewrite Hd. simpl. by rewrite Ht.
  - intros Hnone. unfold store_get. by rewrite Hnone.
  - intros srv0 qs q parsed i rt ps Hstart srv Hb Hf Hop.
    apply (serve_retrieve_started srv0 qs q parsed i rt ps r); try done.
    by rewrite Hop.
  - intros Hverb table. simpl. by rewrite Hverb.
Qed.

End Served.

End RouterFacts.

(** *** Store and retrieve through the server *)

Section ServedStore.

Context `{Express}.

Variable uuidv4 : nat -> string.
Variable jsf_resolve : nat -> value -> value.

(** The guarantee of the [uuid] package: no identifier comes twice. *)
Hypothesis uuidv4_distinct : Inj (=) (=) uuidv4.

Local Abbreviation handle := (handler uuidv4 jsf_resolve).
Local Abbreviation generate := (generateResponse jsf_resolve).
Local Abbreviation serve_one := (serve uuidv4 jsf_resolve).
Local Abbreviation serve_run := (serve_all uuidv4 jsf_resolve).
Local Abbreviation calls := (store_calls uuidv4 jsf_resolve).
Local Abbreviation reachable := (reachable uuidv4 jsf_resolve).
Local Abbreviation issued_only := (issued_only uuidv4).

Lemma serve_issued_only srv q :
  issued_only (mem srv) -> issued_only (mem (serve_one srv q).1).
Proof.
  apply (reachable_issued_only uuidv4 jsf_resolve), serve_reachable.
Qed.

Lemma serve_all_issued_only qs srv :
  issued_only (mem srv) -> issued_only (mem (serve_run srv qs).1).
Proof.
  apply (reachable_issued_only uuidv4 jsf_resolve), serve_all_reachable.
Qed.

(** One request adds one entry when it is a store call and none
    otherwise. *)
Lemma serve_size srv q :
  issued_only (mem srv) ->
  size (dataStore (mem (serve_one srv q).1))
  = (size (dataStore (mem srv)) + if is_store_call srv q then 1 else 0)%nat.
Proof.
  intros Hinv. rewrite serve_mem. unfold is_store_call.
  destruct (express_json _) as [err|parsed]; [lia|].
  destruct (find_route _ _) as [[[i r] ps]|]; [|lia].
  unfold store_operation.
  destruct (x_mock_retrieve (r_operation r)) as [ret|] eqn:Hr.
  { rewrite bool_decide_eq_false_2 by (by intros [_ ?]).
    rewrite (handler_retrieve _ _ _ _ _ ret) by done. simpl. lia. }
  destruct (x_mock_store (r_operation r)) as [s|] eqn:Hs.
  - rewrite bool_decide_eq_true_2 by (split; [by eexists|done]).
    destruct (handler_store uuidv4 jsf_resolve (r_path r) (r_method r)
                (r_operation r) s (mem srv)
                (Request (http_headers q) ps parsed) Hr Hs) as (-> & _).
    simpl.
    rewrite map_size_insert_None
      by (by apply (next_reference_fresh uuidv4)).
    lia.
  - rewrite bool_decide_eq_false_2 by (by intros [[? ?] _]).
    rewrite handler_plain by done. simpl. lia.
Qed.

Lemma serve_all_size qs srv :
  issued_only (mem srv) ->
  size (dataStore (mem (serve_run srv qs).1))
  = (size (dataStore (mem srv)) + calls srv qs)%nat.
Proof.
  revert srv. induction qs as [|q qs IH]; intros srv Hinv; simpl; [lia|].
  pose proof (serve_size srv q Hinv) as H1.
  pose proof (serve_issued_only srv q Hinv) as H2.
  destruct (serve_one srv q) as [srv1 r]. simpl in *.
  pose proof (IH srv1 H2) as H3.
  destruct (serve_run srv1 qs) as [srv2 rs]. simpl in *. lia.
Qed.

(** A store call files the parsed body under the next identifier, and
    every later retrieval of that identifier answers with it. *)
Lemma store_call_round_trip srv q parsed i r ps s :
  issued_only (mem srv) ->
  express_json (http_body q) = inr parsed ->
  find_route (routes srv) q = Some (i, r, ps) ->
  x_mock_store (r_operation r) = Some s ->
  x_mock_retrieve (r_operation r) = None ->
  let reference := uuidv4 (uuid_calls (mem srv)) in
  let srv1 := (serve_one srv q).1 in
  dataStore (mem srv) !! reference = None
  ∧ dataStore (mem srv1) = <[reference := parsed]> (dataStore (mem srv))
  ∧ (serve_one srv q).2
    = Some (stored_response s reference
              (gen_response
                 (generate (r_path r) (r_method r) (r_operation r)
                    (staticResponses (mem srv))
                    (requested_status (Request (http_headers q) ps parsed))
                    (jsf_calls (mem srv)))))
  ∧ ∀ qs' q' parsed' i' r' ps' ret,
      let srv2 := (serve_run srv1 qs').1 in
      express_json (http_body q') = inr parsed' ->
      find_route (routes srv2) q' = Some (i', r', ps') ->
      x_mock_retrieve (r_operation r') = Some ret ->
      ps' !! param ret = Some reference ->
      serve_one srv2 q' = (srv2, Some (Response (VNum 200) parsed)).
Proof.
  intros Hinv Hb Hf Hs Hr reference srv1.
  destruct (handler_store uuidv4 jsf_resolve (r_path r) (r_method r)
              (r_operation r) s (mem srv)
              (Request (http_headers q) ps parsed) Hr Hs)
    as (Hd & Hc & _ & Hresp).
  assert (Hmem : mem srv1
                 = (handle (r_path r) (r_method r) (r_operation r) (mem srv)
                      (Request (http_headers q) ps parsed)).1.1).
  { unfold srv1. by rewrite serve_mem, Hb, Hf. }
  split; [by apply (next_reference_fresh uuidv4)|].
  split; [by rewrite Hmem, Hd|].
  split; [by rewrite (serve_handled _ _ srv q parsed i r ps), Hresp|].
  intros qs' q' parsed' i' r' ps' ret srv2 Hb' Hf' Hret Hp.
  rewrite (serve_retrieve _ _ srv2 q' parsed' i' r' ps' ret) by done.
  rewrite Hp. unfold store_get. simpl.
  assert (Hkeep : dataStore (mem srv2) !! reference = Some parsed).
  { unfold reference.
    rewrite (reachable_keeps_entry uuidv4 jsf_resolve uuidv4_distinct
               (uuid_calls (mem srv)) (mem srv1) (mem srv2)).
    - rewrite Hmem, Hd. simpl. apply lookup_insert_eq.
    - apply serve_all_reachable.
    - rewrite Hmem, Hc. lia. }
  rewrite Hkeep. simpl. by rewrite (express_json_truthy _ _ Hb).
Qed.



End ServedStore.

(** *** The properties on the sample contract *)

Section OnSamples.

Import Samples.

Local Abbreviation handle := (handler sample_uuid sample_jsf).
Local Abbreviation generate := (generateResponse sample_jsf).
Local Abbreviation serve_request := (serve sample_uuid sample_jsf).
Local Abbreviation serve_requests := (serve_all sample_uuid sample_jsf).

Lemma sample_uuid_distinct : Inj (=) (=) sample_uuid.
Proof.
  intros x y H. unfold sample_uuid in H. cbn [String.append] in H.
  injection H as H. by apply (inj pretty).
Qed.

Lemma started_banking : started banking_server.
Proof. by exists (Loaded banking), None. Qed.

Lemma started_dual :
  started (Server [operation_route "/payments/{reference}" ("put", dual_payment)]
                  (initial_state ∅)).
Proof. by exists (Loaded dual_contract), None. Qed.



(** A static entry for a retrieve-annotated operation changes nothing. *)
Lemma retrieval_precedes_static_override_on_payments :
  handle "/payments/{reference}" "get" get_payment
    (initial_state sample_statics) (reference_request "abc")
  = (initial_state sample_statics, get_payment, not_found).
Proof.
  exact (proj1 (retrieval_precedes_static_override sample_uuid sample_jsf
                  "/payments/{reference}" "get" get_payment
                  (MockRetrieve "reference") (initial_state sample_statics)
                  (reference_request "abc") eq_refl)).
Defined.

(** The claim C2 as worded fails: [GET /payments/{reference}] has the
    static entry [teapot], and the answer is 404 "Not found", not the
    entry. *)
Lemma static_override_on_retrieve_refuted :
  is_Some (x_mock_retrieve get_payment)
  ∧ static_lookup sample_statics "/payments/{reference}" "get" = Some teapot
  ∧ (handle "/payments/{reference}" "get" get_payment
       (initial_state sample_statics) (reference_request "abc")).2
    = not_found
  ∧ not_found ≠ Response (static_status teapot) (static_body teapot).
Proof.
  split; [by eexists|]. split; [reflexivity|]. split; [reflexivity|].
  discriminate.
Qed.

(** The static entry of a store-annotated operation with the reference
    assigned into it. *)
Lemma static_override_response_on_payments :
  (handle "/payments" "post" post_payment (initial_state sample_statics)
     (Request ∅ ∅ payment)).2
  = Response (VNum 202)
      (VObj [("status", VStr "accepted"); ("reference", VStr (sample_uuid 0))]).
Proof.
  exact (static_override_response sample_uuid sample_jsf "/payments" "post"
           post_payment accepted (initial_state sample_statics)
           (Request ∅ ∅ payment) eq_refl eq_refl).
Defined.

(** The claim C3 as worded fails: [POST /payments] has no retrieve
    annotation and has the static entry [accepted], and the body sent is
    not the body of the entry. *)
Lemma static_override_verbatim_refuted :
  x_mock_retrieve post_payment = None
  ∧ static_lookup sample_statics "/payments" "post" = Some accepted
  ∧ (handle "/payments" "post" post_payment (initial_state sample_statics)
       (Request ∅ ∅ payment)).2
    = Response (VNum 202)
        (VObj [("status", VStr "accepted"); ("reference", VStr "ref-0")])
  ∧ Response (VNum 202)
      (VObj [("status", VStr "accepted"); ("reference", VStr "ref-0")])
    ≠ Response (static_status accepted) (static_body accepted).
Proof.
  split; [reflexivity|]. split; [reflexivity|]. split; [reflexivity|].
  discriminate.
Qed.

(** A requested status that is declared is the status of the response. *)
Lemma status_selection_on_payments :
  status (gen_response (generate "/payments" "post" post_payment ∅ "201" 0))
  = VNum 201
  ∧ (handle "/payments" "post" post_payment (initial_state ∅)
       (Request {[ "x-mock-response" := "201" ]} ∅ payment)).2
    = Response (VNum 201)
        (VObj [("reference", VStr "ref-0"); ("status", VStr "pending")]).
Proof.
  pose proof (status_selection sample_uuid sample_jsf "/payments" "post"
                post_payment (initial_state ∅)
                (Request {[ "x-mock-response" := "201" ]} ∅ payment)) as Hsel.
  destruct (Hsel eq_refl eq_refl eq_refl) as (Hstatus & Hsent & _).
  split; [exact Hstatus | exact Hsent].
Defined.

(** The claim C4 as worded fails twice. An operation declares 201 and
    404 and not 200, no status is requested, and the response is the
    error 500 and not the first declared status 201. And for the
    requested status [constructor], which [get_summary] does not
    declare, the status is not the declared 200 but what [parseInt]
    makes of the name. *)
Lemma first_declared_status_refuted :
  (x_mock_retrieve create_only = None
   ∧ static_lookup ∅ "/payments" "post" = None
   ∧ default ∅ (responses create_only) !! "200" = None
   ∧ is_Some (default ∅ (responses create_only) !! "201")
   ∧ (handle "/payments" "post" create_only (initial_state ∅) bare_request).2
     = no_response_defined "200"
   ∧ status (no_response_defined "200") ≠ VNum 201)
  ∧ (x_mock_retrieve get_summary = None
     ∧ default ∅ (responses get_summary) !! "constructor" = None
     ∧ is_Some (default ∅ (responses get_summary) !! "200")
     ∧ (handle "/payments/summary" "get" get_summary (initial_state ∅)
          (Request {[ "x-mock-response" := "constructor" ]} ∅ (VObj []))).2
       = Response VNaN (VObj [])
     ∧ VNaN ≠ VNum 200).
Proof.
  split.
  - split; [reflexivity|]. split; [reflexivity|]. split; [reflexivity|].
    split; [by eexists|]. split; [reflexivity|]. discriminate.
  - split; [reflexivity|]. split; [reflexivity|]. split; [by eexists|].
    split; [reflexivity|]. discriminate.
Qed.

(** A contract with an operation that carries both annotations starts. *)
Lemma registration_ignores_annotations_on_dual :
  startServer (Loaded dual_contract) None
  = inr (Server [Route "put" "/payments/:reference" "/payments/{reference}"
                   "put" dual_payment]
                (initial_state ∅)).
Proof.
  refine (proj2 (registration_ignores_annotations dual_contract ∅ _)).
  repeat constructor.
Defined.

(** The claim C5 as worded fails: the only operation of [dual_contract]
    carries both annotations, and [startServer] returns a server with its
    route instead of an error. *)
Lemma conflicting_annotations_rejected_refuted :
  is_Some (x_mock_store dual_payment)
  ∧ is_Some (x_mock_retrieve dual_payment)
  ∧ paths dual_contract = [("/payments/{reference}", [("put", dual_payment)])]
  ∧ ∃ srv, startServer (Loaded dual_contract) None = inr srv
           ∧ length (routes srv) = 1%nat.
Proof.
  split; [by eexists|]. split; [by eexists|]. split; [reflexivity|].
  eexists. split; reflexivity.
Qed.

(** Both orders of declaration of [/payments/summary] and
    [/payments/{reference}]. *)
Lemma first_declared_route_wins_on_payments :
  let literal := operation_route "/payments/summary" ("get", get_summary) in
  let parameterized :=
    operation_route "/payments/{reference}" ("get", get_payment) in
  find_route [literal; parameterized] summary_request = Some (0%nat, literal, ∅)
  ∧ find_route [parameterized; literal] summary_request
    = Some (0%nat, parameterized, {[ "reference" := "summary" ]}).
Proof.
  exact (@first_declared_route_wins sample_express
           (operation_route "/payments/summary" ("get", get_summary))
           (operation_route "/payments/{reference}" ("get", get_payment))
           summary_request [] [] [] ∅ {[ "reference" := "summary" ]}
           (Forall_nil_2 _) eq_refl eq_refl).
Defined.

(** The claim C6 as worded fails: in [shadowed] the parameterized path is
    declared first; [GET /payments/summary] matches both routes, the
    parameterized one is selected, and the answer is its 404. *)
Lemma literal_route_preferred_refuted :
  ∃ srv literal parameterized,
    startServer (Loaded shadowed) None = inr srv
    ∧ routes srv = [parameterized; literal]
    ∧ r_path literal = "/payments/summary"
    ∧ r_path parameterized = "/payments/{reference}"
    ∧ verb literal = verb parameterized
    ∧ is_Some (route_match literal summary_request)
    ∧ is_Some (route_match parameterized summary_request)
    ∧ find_route (routes srv) summary_request
      = Some (0%nat, parameterized, {[ "reference" := "summary" ]})
    ∧ (serve sample_uuid sample_jsf srv summary_request).2 = Some not_found.
Proof.
  eexists _, _, _. split; [reflexivity|]. split; [reflexivity|].
  split; [reflexivity|]. split; [reflexivity|]. split; [reflexivity|].
  split; [by eexists|]. split; [by eexists|]. split; reflexivity.
Qed.


(** C8, evaluated where it fails: status 200 declares the literal example
    [false]; with a schema beside it the body is what the synthesizer
    returns, without a schema it is the empty object, and in neither
    case the example. *)
Theorem falsy_example_skipped :
  (handle "/flag" "get" get_flag (initial_state ∅) bare_request).2
    = Response (VNum 200) (sample_jsf 0 boolean_schema)
  ∧ (handle "/flag" "get" get_flag_no_schema (initial_state ∅) bare_request).2
    = Response (VNum 200) (VObj [])
  ∧ sample_jsf 0 boolean_schema ≠ VBool false
  ∧ VObj [] ≠ VBool false.
Proof. repeat split; (reflexivity || discriminate). Qed.

(** An operation with both annotations, asked to store a payment: the
    reference of its path is looked up, found in a store that has it and
    not found in the empty store. *)
Lemma dual_annotation_only_retrieves_on_payments :
  (let st := State {[ "ref-0" := payment ]} ∅ 1 0 in
   handle "/payments/{reference}" "put" dual_payment st
     (Request ∅ {[ "reference" := "ref-0" ]} (VObj [("amount", VNum 5)]))
   = (st, dual_payment, Response (VNum 200) payment))
  ∧ handle "/payments/{reference}" "put" dual_payment (initial_state ∅)
      (Request ∅ {[ "reference" := "new" ]} payment)
    = (initial_state ∅, dual_payment, not_found)
  ∧ startServer (Loaded dual_contract) (Some (Loaded sample_statics))
    = inr (Server [operation_route "/payments/{reference}" ("put", dual_payment)]
                  (initial_state sample_statics)).
Proof.
  split; [|split].
  - exact (proj1 (@dual_annotation_only_retrieves sample_express sample_uuid sample_jsf
                    "/payments/{reference}" "put" dual_payment
                    (MockRetrieve "reference") (MockStore (Some "reference"))
                    (State {[ "ref-0" := payment ]} ∅ 1 0)
                    (Request ∅ {[ "reference" := "ref-0" ]}
                       (VObj [("amount", VNum 5)]))
                    eq_refl eq_refl)).
  - exact (proj1 (@dual_annotation_only_retrieves sample_express sample_uuid sample_jsf
                    "/payments/{reference}" "put" dual_payment
                    (MockRetrieve "reference") (MockStore (Some "reference"))
                    (initial_state ∅)
                    (Request ∅ {[ "reference" := "new" ]} payment)
                    eq_refl eq_refl)).
  - destruct (@dual_annotation_only_retrieves sample_express sample_uuid sample_jsf
                "/payments/{reference}" "put" dual_payment
                (MockRetrieve "reference") (MockStore (Some "reference"))
                (initial_state ∅)
                (Request ∅ {[ "reference" := "new" ]} payment)
                eq_refl eq_refl) as (_ & _ & _ & _ & Hstart).
    exact (Hstart eq_refl sample_statics).
Defined.



End OnSamples.

(** ** Further properties of the code *)

(** *** responseGenerator.js *)

Section GeneratorFacts.

Variable jsf_resolve : nat -> value -> value.

Local Abbreviation generate := (generateResponse jsf_resolve).

(** X1. [generateResponse] asks the schema synthesizer for at most one
    value, and only as the last resort: exactly when there is no static
    entry, the selected status is declared by the operation itself, its
    example is falsy and its schema is truthy. *)
Theorem synthesizer_is_last_resort path method op statics requested n :
  let g := generate path method op statics requested n in
  (gen_jsf_calls g = n ∨ gen_jsf_calls g = S n)
  ∧ (gen_jsf_calls g = S n <->
     static_lookup statics path method = None
     ∧ ∃ d, default ∅ (responses op) !! selected_status op requested = Some d
            ∧ truthy (from_option example VUndefined (json_content d)) = false
            ∧ truthy (from_option schema VUndefined (json_content d)) = true).
Proof.
  cbv zeta. unfold generateResponse.
  destruct (static_lookup statics path method) as [e|] eqn:Hst; simpl.
  { split; [by left|]. split; [lia|]. by intros [? _]. }
  destruct (default ∅ (responses op) !! selected_status op requested)
    as [d|] eqn:Hd; simpl.
  2: { destruct (inherited_key _); simpl;
         (split; [by left|]; split; [lia|]; by intros (_ & d & ? & _)). }
  destruct (truthy (from_option example VUndefined (json_content d))) eqn:Hex;
    simpl.
  { split; [by left|]. split; [lia|].
    intros (_ & d' & Hd' & Hex' & _). congruence. }
  destruct (truthy (from_option schema VUndefined (json_content d))) eqn:Hsch;
    simpl.
  - split; [by right|]. split; [|done]. intros _. split; [done|]. by exists d.
  - split; [by left|]. split; [lia|].
    intros (_ & d' & Hd' & _ & Hsch'). congruence.
Qed.

Lemma hex_digit_of_digit c :
  is_digit c = true ->
  hex_digit c = Some (digit_of c) ∧ 0 <= digit_of c < 10.
Proof.
  unfold is_digit, hex_digit, digit_of. intros H.
  apply andb_true_iff in H as [H1 H2].
  apply N.leb_le in H1. apply N.leb_le in H2.
  assert (48 <= Z.of_N (N_of_ascii c) <= 57) as [Ha Hb] by lia.
  apply Z.leb_le in Ha as Ha'. apply Z.leb_le in Hb as Hb'.
  rewrite Ha', Hb'. simpl. split; [done|lia].
Qed.

Lemma read_digits_decimal s acc :
  all_digits s = true ->
  read_digits 10 (Some acc) s = Some (decimal_value acc s).
Proof.
  revert acc. induction s as [|c s IH]; intros acc Hall; simpl in *; [done|].
  apply andb_true_iff in Hall as [Hc Hs].
  destruct (hex_digit_of_digit c Hc) as (-> & _ & Hlt).
  apply Z.ltb_lt in Hlt. rewrite Hlt. simpl. by apply IH.
Qed.

(** On a text made of decimal digits only, [parseInt] gives the number
    that the digits write. *)
Lemma parseInt_of_digits s :
  s ≠ "" ->
  all_digits s = true ->
  parseInt s = VNum (decimal_value 0 s).
Proof.
  intros Hne Hall. destruct s as [|c s]; [done|]. simpl in Hall.
  apply andb_true_iff in Hall as [Hc Hs].
  assert (Hread : read_digits 10 None (String c s)
                  = Some (decimal_value 0 (String c s))).
  { simpl. destruct (hex_digit_of_digit c Hc) as (-> & _ & Hlt).
    apply Z.ltb_lt in Hlt. rewrite Hlt. simpl. by apply read_digits_decimal. }
  assert (Hspace : is_space c = false).
  { unfold is_digit in Hc. unfold is_space.
    apply andb_true_iff in Hc as [H1 H2].
    apply N.leb_le in H1. apply N.leb_le in H2.
    apply orb_false_iff. split.
    - apply N.eqb_neq. lia.
    - apply andb_false_iff. right. apply N.leb_gt. lia. }
  unfold parseInt. simpl skip_space. rewrite Hspace.
  destruct (Ascii.eqb_spec c "-") as [->|Hminus]; [done|].
  destruct (Ascii.eqb_spec c "+") as [->|Hplus]; [done|].
  destruct (Ascii.eqb_spec c "0") as [->|Hzero].
  - destruct s as [|c2 s].
    + reflexivity.
    + simpl in Hs. apply andb_true_iff in Hs as [Hc2 Hs].
      destruct (Ascii.eqb_spec c2 "x") as [->|Hx]; [done|].
      destruct (Ascii.eqb_spec c2 "X") as [->|HX]; [done|].
      assert (Hgo : read_digits 10 None (String "0" (String c2 s))
                    = Some (decimal_value 0 (String "0" (String c2 s)))).
      { exact Hread. }
      destruct c2 as [[] [] [] [] [] [] [] []]; try done;
        cbv beta iota; rewrite Hgo; f_equal; apply Z.mul_1_l.
  - destruct c as [[] [] [] [] [] [] [] []]; try done;
      cbv beta iota; rewrite Hread; f_equal; apply Z.mul_1_l.
Qed.

Lemma parseInt_inherited k : inherited_key k = true -> parseInt k = VNaN.
Proof.
  intros Hk. apply bool_decide_eq_true in Hk. unfold object_prototype_keys in Hk.
  repeat (apply elem_of_cons in Hk as [->|Hk]; [reflexivity|]).
  by apply elem_of_nil in Hk.
Qed.

Lemma selected_status_inherited op requested :
  inherited_key requested = true -> selected_status op requested = requested.
Proof. intros Hk. unfold selected_status. rewrite Hk. by case_decide. Qed.

(** X19. A requested status that is a name which every object inherits
    from [Object.prototype] ([constructor], [toString], ...), and that
    the operation does not declare, is selected all the same: there is
    no fallback to 200 and no error 500, the synthesizer is not asked,
    and the response is the empty object under the status that
    [parseInt] makes of the name, which is [NaN]. *)
Theorem inherited_status_name_is_selected path method op statics requested n :
  static_lookup statics path method = None ->
  inherited_key requested = true ->
  default ∅ (responses op) !! requested = None ->
  selected_status op requested = requested
  ∧ generateResponse jsf_resolve path method op statics requested n
    = Generated (Response VNaN (VObj [])) Fresh n.
Proof.
  intros Hst Hk Hnone.
  pose proof (selected_status_inherited op requested Hk) as Hsel.
  split; [done|]. unfold generateResponse. rewrite Hst, Hsel, Hnone, Hk.
  by rewrite parseInt_inherited.
Qed.

End GeneratorFacts.

(** *** The handler of server.js *)

Lemma assoc_get_replace k v fs :
  is_Some (assoc_get k fs) -> assoc_get k (assoc_replace k v fs) = Some v.
Proof.
  induction fs as [|[k' v'] fs IH]; simpl; [by intros [? ?]|].
  destruct (String.eqb k k') eqn:E; simpl.
  - by rewrite String.eqb_refl.
  - by rewrite E.
Qed.

Lemma assoc_replace_twice k v1 v2 fs :
  assoc_replace k v2 (assoc_replace k v1 fs) = assoc_replace k v2 fs.
Proof.
  induction fs as [|[k' v'] fs IH]; simpl; [done|].
  destruct (String.eqb k k') eqn:E; simpl.
  - by rewrite String.eqb_refl.
  - by rewrite E, IH.
Qed.

Lemma assoc_get_insert_index i k v fs :
  assoc_get k fs = None ->
  assoc_get k (assoc_insert_index i k v fs) = Some v.
Proof.
  induction fs as [|[k' v'] fs IH]; simpl.
  - by rewrite String.eqb_refl.
  - destruct (String.eqb k k') eqn:E; [done|]. intros Hnone.
    destruct (array_index k') as [j|]; [destruct (j <? i)%nat|]; simpl;
      rewrite ?String.eqb_refl; try done.
    rewrite E. by apply IH.
Qed.

Lemma assoc_replace_insert_index i k v1 v2 fs :
  assoc_get k fs = None ->
  assoc_replace k v2 (assoc_insert_index i k v1 fs) = assoc_insert_index i k v2 fs.
Proof.
  induction fs as [|[k' v'] fs IH]; simpl.
  - by rewrite String.eqb_refl.
  - destruct (String.eqb k k') eqn:E; [done|]. intros Hnone.
    destruct (array_index k') as [j|]; [destruct (j <? i)%nat|]; simpl;
      rewrite ?String.eqb_refl; try done.
    by rewrite E, IH.
Qed.

Lemma assoc_get_last k v fs :
  assoc_get k (fs ++ [(k, v)])%list = Some (default v (assoc_get k fs)).
Proof.
  induction fs as [|[k' v'] fs IH]; simpl.
  - by rewrite String.eqb_refl.
  - by destruct (String.eqb k k').
Qed.

Lemma assoc_replace_last k v1 v2 fs :
  assoc_get k fs = None ->
  assoc_replace k v2 (fs ++ [(k, v1)])%list = (fs ++ [(k, v2)])%list.
Proof.
  induction fs as [|[k' v'] fs IH]; simpl.
  - by rewrite String.eqb_refl.
  - destruct (String.eqb k k') eqn:E; [done|]. intros Hnone. by rewrite IH.
Qed.

Lemma assoc_get_set k v fs : assoc_get k (assoc_set k v fs) = Some v.
Proof.
  unfold assoc_set. destruct (assoc_get k fs) as [w|] eqn:Hk.
  - apply assoc_get_replace. by rewrite Hk.
  - destruct (array_index k) as [i|].
    + by apply assoc_get_insert_index.
    + by rewrite assoc_get_last, Hk.
Qed.

Lemma assoc_set_twice k v1 v2 fs :
  assoc_set k v2 (assoc_set k v1 fs) = assoc_set k v2 fs.
Proof.
  unfold assoc_set at 1. rewrite assoc_get_set. unfold assoc_set.
  destruct (assoc_get k fs) as [w|] eqn:Hk.
  - apply assoc_replace_twice.
  - destruct (array_index k) as [i|].
    + by apply assoc_replace_insert_index.
    + by apply assoc_replace_last.
Qed.

Lemma array_set_twice i v1 v2 items :
  array_set i v2 (array_set i v1 items) = array_set i v2 items.
Proof.
  unfold array_set.
  destruct (i <? length items)%nat eqn:E.
  - rewrite length_insert, E. apply list_insert_insert_eq.
  - apply Nat.ltb_ge in E.
    rewrite !length_app, length_replicate. simpl.
    replace (i <? length items + (i - length items + 1))%nat with true
      by (symmetry; apply Nat.ltb_lt; lia).
    rewrite insert_app_r_alt by lia.
    rewrite insert_app_r_alt by (rewrite length_replicate; lia).
    rewrite length_replicate.
    replace (i - length items - (i - length items))%nat with 0%nat by lia.
    done.
Qed.

(** Assigning the same property again replaces what the first
    assignment wrote; an assignment does not change truthiness; and
    whether it throws does not depend on the value assigned. *)
Lemma assign_prop_again b k r1 r2 b1 :
  assign_prop b k r1 = Some b1 -> assign_prop b1 k r2 = assign_prop b k r2.
Proof.
  destruct b; cbn [assign_prop]; try (by intros [= <-]).
  - destruct (String.eqb k "length") eqn:El; [done|].
    destruct (array_index k) eqn:E; intros [= <-]; cbn [assign_prop];
      rewrite El, E; [|done].
    by rewrite array_set_twice.
  - destruct (String.eqb k "__proto__"
              && negb (bool_decide (is_Some (assoc_get k fields)))) eqn:Ep;
      intros [= <-]; cbn [assign_prop].
    + by rewrite Ep.
    + pose proof (assoc_get_set k (VStr r1) fields) as Hown.
      rewrite Hown.
      rewrite (bool_decide_eq_true_2 (is_Some (Some (VStr r1))))
        by (by eexists).
      cbn [negb]. rewrite andb_false_r. by rewrite assoc_set_twice.
Qed.

Lemma truthy_assigned b k r b1 :
  assign_prop b k r = Some b1 -> truthy b1 = truthy b.
Proof.
  destruct b; cbn [assign_prop]; try (by intros [= <-]).
  - destruct (String.eqb k "length"); [done|].
    by destruct (array_index k); intros [= <-].
  - by destruct (_ && _); intros [= <-].
Qed.

Lemma with_reference_again s r1 r2 b b1 :
  with_reference s r1 b = Some b1 ->
  with_reference s r2 b1 = with_reference s r2 b.
Proof.
  unfold with_reference. destruct (truthy b) eqn:Hb.
  - destruct (usable_field s) as [field|].
    + intros Ha. rewrite (truthy_assigned _ _ _ _ Ha), Hb.
      by apply (assign_prop_again _ _ r1).
    + intros [= <-]. by rewrite Hb.
  - intros [= <-]. by rewrite Hb.
Qed.

Section HandlerExtras.

Variable uuidv4 : nat -> string.
Variable jsf_resolve : nat -> value -> value.

Local Abbreviation handle := (handler uuidv4 jsf_resolve).
Local Abbreviation generate := (generateResponse jsf_resolve).

Lemma requested_status_not_empty req : requested_status req ≠ "".
Proof.
  unfold requested_status.
  destruct (req_headers req !! "x-mock-response") as [h|]; [|done].
  destruct (String.eqb_spec h ""); done.
Qed.

(** X2. When the selected status is declared by the operation itself
    and its key is made of decimal digits only ("200", "404"), the
    status of the generated response is the number that the key writes;
    that response is what is passed to [res], after the store step when
    the operation stores, so that whenever a response is sent its status
    is that number. *)
Theorem numeric_status_key_is_sent path method op st req d :
  x_mock_retrieve op = None ->
  static_lookup (staticResponses st) path method = None ->
  let key := selected_status op (requested_status req) in
  default ∅ (responses op) !! key = Some d ->
  all_digits key = true ->
  let g := generateResponse jsf_resolve path method op (staticResponses st)
             (requested_status req) (jsf_calls st) in
  let sent := (handler uuidv4 jsf_resolve path method op st req).2 in
  status (gen_response g) = VNum (decimal_value 0 key)
  ∧ sent = match x_mock_store op with
           | None => gen_response g
           | Some s => stored_response s (uuidv4 (uuid_calls st)) (gen_response g)
           end
  ∧ (sent ≠ Unanswered -> status sent = VNum (decimal_value 0 key)).
Proof.
  intros Hr Hst key Hd Hdigits g sent.
  assert (Hkey : key ≠ "").
  { subst key. unfold selected_status.
    pose proof (requested_status_not_empty req).
    case_decide; [done|]. by destruct (inherited_key _). }
  assert (Hstatus : status (gen_response g) = VNum (decimal_value 0 key)).
  { subst g. rewrite (generate_declared jsf_resolve _ _ _ _ _ _ d Hst Hd).
    cbv zeta. fold key. rewrite <- (parseInt_of_digits key Hkey Hdigits).
    destruct (truthy _); [done|]. by destruct (truthy _). }
  assert (Hsent : sent = match x_mock_store op with
                         | None => gen_response g
                         | Some s => stored_response s (uuidv4 (uuid_calls st))
                                       (gen_response g)
                         end)
    by (by apply handler_response).
  split; [done|]. split; [done|].
  rewrite Hsent. destruct (x_mock_store op) as [s|]; [|done].
  unfold stored_response. by destruct (with_reference _ _ _).
Qed.

(** X3. A store-annotated operation for which neither the requested
    status nor 200 is declared (the requested status being no inherited
    name) still stores the request body under a new reference, and
    answers 500 with the reference assigned into the error body, the
    way JavaScript assigns: under [__proto__] nothing is added. *)
Theorem store_step_runs_on_undeclared_status path method op s st req :
  x_mock_retrieve op = None ->
  x_mock_store op = Some s ->
  static_lookup (staticResponses st) path method = None ->
  default ∅ (responses op) !! selected_status op (requested_status req) = None ->
  inherited_key (selected_status op (requested_status req)) = false ->
  let reference := uuidv4 (uuid_calls st) in
  let out := handle path method op st req in
  let message := VStr "No response defined for status 200" in
  dataStore out.1.1 !! reference = Some (req_body req)
  ∧ out.2 = Response (VNum 500)
              match usable_field s with
              | Some field =>
                  if String.eqb field "__proto__" then VObj [("error", message)]
                  else VObj (assoc_set field (VStr reference) [("error", message)])
              | None => VObj [("error", message)]
              end.
Proof.
  intros Hr Hs Hst Hnone Hinh. cbv zeta.
  assert (Hsel : selected_status op (requested_status req) = "200").
  { revert Hnone Hinh. unfold selected_status. case_decide as Hd.
    - intros Hnone. destruct Hd as [d Hd]. congruence.
    - destruct (inherited_key (requested_status req)) eqn:E; [congruence|done]. }
  destruct (handler_store uuidv4 jsf_resolve path method op s st req Hr Hs)
    as (Hstored & _ & _ & Hsent).
  rewrite Hstored, Hsent.
  split; [by rewrite lookup_insert_eq|].
  rewrite (generate_undeclared jsf_resolve _ _ _ _ _ _ Hst Hnone Hinh).
  rewrite Hsel. unfold stored_response, with_reference. simpl.
  destruct (usable_field s) as [field|]; [|done].
  cbn [body truthy no_response_defined assign_prop].
  destruct (String.eqb_spec field "__proto__") as [->|Hne]; done.
Qed.

(** X4. When the body generated is an example of the contract and the
    store step assigns the reference into it, it assigns into the
    example that the operation holds: the operation afterwards declares,
    for that status, the body that was sent. When the assignment throws,
    nothing is sent and the operation is as it was. *)
Theorem store_step_rewrites_example path method op s st req d m field :
  x_mock_retrieve op = None ->
  x_mock_store op = Some s ->
  usable_field s = Some field ->
  static_lookup (staticResponses st) path method = None ->
  default ∅ (responses op) !! selected_status op (requested_status req) = Some d ->
  json_content d = Some m ->
  truthy (example m) = true ->
  let key := selected_status op (requested_status req) in
  let out := handle path method op st req in
  match assign_prop (example m) field (uuidv4 (uuid_calls st)) with
  | Some b =>
      out.2 = Response (parseInt key) b
      ∧ default ∅ (responses out.1.2) !! key
        = Some (ResponseDef (Some (MediaType b (schema m))))
  | None => out.2 = Unanswered ∧ out.1.2 = op
  end.
Proof.
  intros Hr Hs Hfield Hst Hd Hm Hex. cbv zeta.
  rewrite (handler_store_outcome uuidv4 jsf_resolve path method op s st req Hr Hs).
  cbv zeta.
  rewrite (generate_declared jsf_resolve _ _ _ _ _ _ d Hst Hd). cbv zeta.
  rewrite Hm. simpl. rewrite Hex. simpl. rewrite Hex, Hfield.
  destruct (assign_prop (example m) field (uuidv4 (uuid_calls st))) as [b|];
    simpl; [|done].
  split; [done|].
  destruct (responses op) as [rs|]; simpl in *; [|by rewrite lookup_empty in Hd].
  rewrite lookup_alter_eq, Hd. simpl. unfold set_example. by rewrite Hm.
Qed.

Lemma selected_status_write_back key b op requested :
  selected_status (write_back_example key b op) requested
  = selected_status op requested.
Proof.
  unfold selected_status, write_back_example. simpl.
  destruct (responses op) as [rs|]; simpl; [|done].
  destruct (decide (key = requested)) as [->|Hne].
  - rewrite lookup_alter_eq.
    destruct (rs !! requested); simpl; repeat case_decide; try done;
      exfalso; naive_solver.
  - by rewrite lookup_alter_ne.
Qed.

(** What the generator returns for an operation whose example was
    assigned to, compared with the operation as declared. *)
Lemma generate_after_example_rewrite path method op key d m field r b
    statics requested n :
  default ∅ (responses op) !! key = Some d ->
  json_content d = Some m ->
  truthy (example m) = true ->
  assign_prop (example m) field r = Some b ->
  let g := generate path method op statics requested n in
  let g1 := generate path method (write_back_example key b op)
              statics requested n in
  status (gen_response g1) = status (gen_response g)
  ∧ (body (gen_response g1) = body (gen_response g)
     ∨ (body (gen_response g) = example m ∧ body (gen_response g1) = b)).
Proof.
  intros Hd Hm Hex Hb. cbv zeta. unfold generateResponse.
  destruct (static_lookup statics path method); [by split; [|left]|].
  rewrite selected_status_write_back.
  unfold write_back_example. cbn [responses].
  destruct (responses op) as [rs|]; simpl in *;
    [|by rewrite lookup_empty in Hd].
  destruct (decide (key = selected_status op requested)) as [Heq|Hne].
  - rewrite <- Heq. rewrite lookup_alter_eq, Hd. simpl.
    unfold set_example. rewrite Hm. simpl.
    rewrite (truthy_assigned _ _ _ _ Hb), Hex. simpl. split; [done|]. by right.
  - rewrite lookup_alter_ne by done.
    split; [done|]. by left.
Qed.

(** After a store step, the next response of the operation is generated
    from a table and an operation that may carry the reference just
    assigned; the store step of the next call assigns over it. *)
Lemma store_step_hidden path method op s st req1 requested n r2 :
  x_mock_retrieve op = None ->
  x_mock_store op = Some s ->
  let out := handle path method op st req1 in
  stored_response s r2
    (gen_response (generate path method out.1.2 (staticResponses out.1.1)
                     requested n))
  = stored_response s r2
      (gen_response (generate path method op (staticResponses st) requested n)).
Proof.
  intros Hr Hs. cbv zeta.
  rewrite (handler_store_outcome uuidv4 jsf_resolve path method op s st req1 Hr Hs).
  cbv zeta.
  set (g := generate path method op (staticResponses st)
              (requested_status req1) (jsf_calls st)).
  set (ref1 := uuidv4 (uuid_calls st)).
  destruct (if truthy (body (gen_response g)) then usable_field s else None)
    as [field|] eqn:Hfield; [|done].
  destruct (assign_prop (body (gen_response g)) field ref1) as [b|] eqn:Hassign;
    [|done].
  assert (Hwr : with_reference s ref1 (body (gen_response g)) = Some b)
    by (unfold with_reference; by rewrite Hfield).
  simpl.
  destruct (static_lookup (staticResponses st) path method) as [e|] eqn:Hst.
  - subst g. rewrite (generate_static jsf_resolve _ _ _ _ _ _ e Hst) in *.
    simpl in *.
    rewrite (generate_static jsf_resolve _ _ _ _ _ _ (set_static_body b e))
      by (by apply static_lookup_write_back).
    rewrite (generate_static jsf_resolve _ _ _ _ _ _ e Hst).
    unfold stored_response. simpl.
    by rewrite (with_reference_again _ _ _ _ _ Hwr).
  - destruct (default ∅ (responses op) !! selected_status op (requested_status req1))
      as [d|] eqn:Hd.
    2: { assert (Ho : gen_origin g = Fresh).
         { subst g. unfold generateResponse. rewrite Hst, Hd.
           by destruct (inherited_key _). }
         by rewrite Ho. }
    revert Hfield Hassign Hwr. subst g.
    rewrite !(generate_declared jsf_resolve _ _ _ _ _ _ d Hst Hd). cbv zeta.
    destruct (json_content d) as [m|] eqn:Hm; simpl; [|done].
    destruct (truthy (example m)) eqn:Hex; simpl;
      [|by destruct (truthy (schema m))].
    intros Hfield Hassign Hwr.
    destruct (generate_after_example_rewrite path method op _ d m field
                ref1 b (staticResponses st) requested n Hd Hm Hex Hassign)
      as [Hstatus Hbody].
    unfold stored_response. rewrite Hstatus.
    destruct Hbody as [-> | [-> ->]]; [done|].
    by rewrite (with_reference_again _ _ _ _ _ Hwr).
Qed.

(** X5. What the store step writes into the static table or into the
    contract never shows in a later response of the operation: the next
    call answers as it would with the table and the operation as they
    were loaded, because it assigns its own reference over the previous
    one. *)
Theorem store_mutation_unobservable path method op st req1 req2 :
  let out := handler uuidv4 jsf_resolve path method op st req1 in
  (handler uuidv4 jsf_resolve path method out.1.2 out.1.1 req2).2
  = (handler uuidv4 jsf_resolve path method op
       (State (dataStore out.1.1) (staticResponses st)
              (uuid_calls out.1.1) (jsf_calls out.1.1)) req2).2.
Proof.
  cbv zeta.
  destruct (x_mock_retrieve op) as [r|] eqn:Hr.
  { rewrite (handler_retrieve _ _ path method op r st req1) by done.
    simpl. by destruct st. }
  destruct (x_mock_store op) as [s|] eqn:Hs.
  2: { by rewrite (handler_plain _ _ path method op st req1) by done. }
  destruct (handler_keeps_annotations uuidv4 jsf_resolve path method op st req1)
    as [Hr1 Hs1].
  rewrite Hr in Hr1. rewrite Hs in Hs1.
  rewrite (handler_response uuidv4 jsf_resolve path method _ _ req2 Hr1).
  rewrite (handler_response uuidv4 jsf_resolve path method op _ req2 Hr).
  rewrite Hs1, Hs. simpl.
  by apply store_step_hidden.
Qed.

End HandlerExtras.

(** *** The store and the static table along a run, and the first server *)

Section RunExtras.

Context `{Express}.
Variable uuidv4 : nat -> string.
Variable jsf_resolve : nat -> value -> value.

Local Abbreviation handle := (handler uuidv4 jsf_resolve).
Local Abbreviation reachable := (reachable uuidv4 jsf_resolve).

Lemma static_lookup_write_back_other path method b statics path' method' :
  (path', toUpperCase method') ≠ (path, toUpperCase method) ->
  static_lookup (write_back_static path method b statics) path' method'
  = static_lookup statics path' method'.
Proof.
  intros Hne. unfold static_lookup, write_back_static.
  destruct (decide (path = path')) as [->|Hp].
  - rewrite lookup_alter_eq.
    destruct (statics !! path') as [by_method|]; simpl; [|done].
    apply lookup_alter_ne. congruence.
  - by rewrite lookup_alter_ne.
Qed.

(** X6. A run of a handler never changes the static entry of another
    path or method. *)
Theorem handler_keeps_other_static_entries path method op st req path' method' :
  (path', toUpperCase method') ≠ (path, toUpperCase method) ->
  static_lookup (staticResponses (handle path method op st req).1.1) path' method'
  = static_lookup (staticResponses st) path' method'.
Proof.
  intros Hne.
  destruct (x_mock_retrieve op) as [r|] eqn:Hr.
  { by rewrite (handler_retrieve _ _ path method op r st req). }
  destruct (x_mock_store op) as [s|] eqn:Hs.
  2: { by rewrite (handler_plain _ _ path method op st req). }
  rewrite (handler_store_outcome _ _ path method op s st req) by done.
  cbv zeta.
  destruct (if truthy _ then usable_field s else None) as [field|]; [|done].
  destruct (assign_prop _ _ _) as [b|]; [|done]. simpl.
  destruct (gen_origin _); try done.
  by apply static_lookup_write_back_other.
Qed.


(** X7. Nothing is ever removed from the store: a reference that is a
    key in some state is a key in every later state. *)
Theorem store_never_forgets st st' :
  reachable st st' -> dom (dataStore st) ⊆ dom (dataStore st').
Proof.
  induction 1 as [|st mid st' Hstep _ IH]; [done|].
  etrans; [|exact IH].
  destruct (step_cases _ _ _ _ Hstep) as [[-> _] | (b & -> & _)]; [done|].
  apply dom_insert_subseteq.
Qed.

(** The store holds one entry per identifier drawn. *)
Lemma step_size st st' :
  Inj (=) (=) uuidv4 ->
  step uuidv4 jsf_resolve st st' ->
  issued_only uuidv4 st ->
  size (dataStore st) = uuid_calls st ->
  size (dataStore st') = uuid_calls st'.
Proof.
  intros Hinj Hstep Hinv Hsize.
  destruct (step_cases _ _ _ _ Hstep) as [[-> ->] | (b & -> & ->)]; [done|].
  rewrite map_size_insert_None, Hsize; [done|].
  by apply next_reference_fresh.
Qed.

(** X8. With a generator that never repeats, the store of a running
    server holds exactly as many entries as store steps have run: every
    body submitted stays in memory. *)
Theorem store_grows_with_every_store_call statics st :
  Inj (=) (=) uuidv4 ->
  reachable (initial_state statics) st ->
  size (dataStore st) = uuid_calls st.
Proof.
  intros Hinj Hreach.
  assert (Hgen : ∀ a b, reachable a b ->
            issued_only uuidv4 a -> size (dataStore a) = uuid_calls a ->
            size (dataStore b) = uuid_calls b).
  { induction 1 as [|a mid b Hstep _ IH]; [done|]. intros Hinv Hsize.
    apply IH.
    - by eapply step_issued_only.
    - by eapply step_size. }
  apply (Hgen _ _ Hreach).
  - apply initial_issued_only.
  - simpl. apply map_size_empty.
Qed.

Lemma serve_plain rs ds statics uc n q :
  Forall (λ r, plain_operation (r_operation r)) rs ->
  serve uuidv4 jsf_resolve (Server rs (State ds statics uc n)) q
  = (Server rs (State ds statics uc (serve_v1 jsf_resolve rs statics n q).1),
     (serve_v1 jsf_resolve rs statics n q).2).
Proof.
  intros Hplain. unfold serve, serve_v1. simpl.
  destruct (express_json (http_body q)) as [err|parsed]; [done|].
  destruct (find_route rs q) as [[[i r] ps]|] eqn:Hfind; [|done].
  destruct (find_route_lookup _ _ _ _ _ Hfind) as [Hi _].
  assert (plain_operation (r_operation r)) as [Hr Hs].
  { rewrite Forall_forall in Hplain. apply Hplain.
    by eapply list_elem_of_lookup_2. }
  rewrite handler_plain by done. unfold handler_v1. simpl.
  by rewrite routes_alter_same.
Qed.

(** X9. On a contract without annotations the linkage-enabled server
    answers every sequence of requests exactly as the first server does,
    and never touches the store, the identifier generator, the routes or
    the static table. *)
Theorem linkage_extends_first_server rs ds statics uc n qs :
  Forall (λ r, plain_operation (r_operation r)) rs ->
  serve_all uuidv4 jsf_resolve (Server rs (State ds statics uc n)) qs
  = (Server rs (State ds statics uc (serve_all_v1 jsf_resolve rs statics n qs).1),
     (serve_all_v1 jsf_resolve rs statics n qs).2).
Proof.
  intros Hplain. revert n. induction qs as [|q qs IH]; intros n; simpl; [done|].
  rewrite serve_plain by done.
  destruct (serve_v1 jsf_resolve rs statics n q) as [n1 r]. simpl.
  rewrite IH.
  by destruct (serve_all_v1 jsf_resolve rs statics n1 qs) as [n2 out].
Qed.


(** X20. A request whose body the parser refuses (a text that is no
    JSON, or the JSON text of anything but an object or an array) is
    answered by the error middleware, status 400 with the parser's
    message, before any route is tried: whatever the routes and the
    state are, nothing changes. *)
Theorem refused_body_reaches_no_route srv q :
  http_body q = Malformed
  ∨ (∃ v, http_body q = JsonText v
          ∧ (∀ fs, v ≠ VObj fs) ∧ (∀ items, v ≠ VArr items)) ->
  serve uuidv4 jsf_resolve srv q
  = (srv,
     Some (Response (VNum 400)
             (VObj [("error", VStr (syntax_error_message (http_body q)));
                    ("details", VUndefined)]))).
Proof.
  intros Hbody.
  rewrite (serve_refused uuidv4 jsf_resolve srv q
             (HttpError (VNum 400) (syntax_error_message (http_body q))
                VUndefined)); [done|].
  destruct Hbody as [-> | (v & -> & Hobj & Harr)]; [done|].
  destruct v; try done; [by destruct (Harr items) | by destruct (Hobj fields)].
Qed.

End RunExtras.

(** *** Patterns, registration and path parameters *)

Lemma append_cons x (a b : string) : String x a +:+ b = String x (a +:+ b).
Proof. reflexivity. Qed.

Lemma append_assoc (a b c : string) : (a +:+ b) +:+ c = a +:+ (b +:+ c).
Proof.
  induction a as [|x a IH]; [done|]. rewrite !append_cons. by rewrite IH.
Qed.

Lemma append_empty_r (a : string) : a +:+ "" = a.
Proof. induction a as [|x a IH]; [done|]. rewrite append_cons. by rewrite IH. Qed.

Lemma braces_before_first pre rest :
  has_char "{" pre = false ->
  braces_to_colons None (pre +:+ rest) = pre +:+ braces_to_colons None rest.
Proof.
  induction pre as [|c pre IH]; [done|]. cbn [has_char]. intros H.
  apply orb_false_iff in H as [Hc Hpre].
  rewrite !append_cons. cbn [braces_to_colons]. rewrite Hc. by rewrite IH.
Qed.

Lemma braces_pending name acc post :
  has_char "}" name = false ->
  braces_to_colons (Some acc) (name +:+ String "}" post)
  = if String.eqb (acc +:+ name) ""
    then String "{" (String "}" (braces_to_colons None post))
    else String ":" (acc +:+ name) +:+ braces_to_colons None post.
Proof.
  revert acc. induction name as [|c name IH]; intros acc H.
  - change ("" +:+ String "}" post) with (String "}" post).
    cbn [braces_to_colons]. rewrite Ascii.eqb_refl.
    by rewrite append_empty_r.
  - cbn [has_char] in H. apply orb_false_iff in H as [Hc Hname].
    rewrite append_cons. cbn [braces_to_colons]. rewrite Hc.
    rewrite IH by done.
    replace ((acc +:+ String c "") +:+ name) with (acc +:+ String c name)
      by (by rewrite append_assoc).
    done.
Qed.

Lemma braces_unclosed s :
  has_char "}" s = false ->
  braces_to_colons None s = s
  ∧ ∀ acc, braces_to_colons (Some acc) s = String "{" (acc +:+ s).
Proof.
  induction s as [|c s IH]; intros H.
  - split; [done|]. intros acc. cbn [braces_to_colons].
    by rewrite append_empty_r.
  - cbn [has_char] in H. apply orb_false_iff in H as [Hc Hs].
    destruct (IH Hs) as [IHn IHp]. split.
    + cbn [braces_to_colons]. destruct (Ascii.eqb c "{") eqn:E.
      * apply Ascii.eqb_eq in E as ->. by rewrite IHp.
      * by rewrite IHn.
    + intros acc. cbn [braces_to_colons]. rewrite Hc, IHp.
      replace ((acc +:+ String c "") +:+ s) with (acc +:+ String c s)
        by (by rewrite append_assoc).
      done.
Qed.

(** X10. Registration turns a placeholder [{name}] of the path into the
    parameter [:name] and leaves what comes before it as it is. *)
Theorem route_pattern_placeholder pre name post :
  has_char "{" pre = false ->
  name ≠ "" ->
  has_char "}" name = false ->
  route_pattern (pre +:+ "{" +:+ name +:+ "}" +:+ post)
  = pre +:+ ":" +:+ name +:+ route_pattern post.
Proof.
  intros Hpre Hname Hclose. unfold route_pattern.
  rewrite braces_before_first by done. f_equal.
  change ("{" +:+ name +:+ "}" +:+ post)
    with (String "{" (name +:+ String "}" post)).
  cbn [braces_to_colons]. rewrite Ascii.eqb_refl.
  rewrite braces_pending by done.
  change ("" +:+ name) with name.
  destruct (String.eqb_spec name "") as [->|_]; done.
Qed.

(** X11. A path that has no opening brace, or no closing brace, is
    registered as it is written: a brace that is never closed is not a
    placeholder. *)
Theorem route_pattern_verbatim s :
  has_char "{" s = false ∨ has_char "}" s = false ->
  route_pattern s = s.
Proof.
  unfold route_pattern. intros [H|H].
  - rewrite <- (append_empty_r s) at 1.
    rewrite braces_before_first by done. simpl. apply append_empty_r.
  - by apply braces_unclosed.
Qed.

Lemma annex_key_no_verb k :
  annex_key k -> is_express_verb (toLowerCase k) = false.
Proof.
  intros [Hin | [rest ->]].
  - repeat (apply elem_of_cons in Hin as [->|Hin]; [reflexivity|]).
    by apply elem_of_nil in Hin.
  - apply bool_decide_eq_false. simpl. intros Hin.
    repeat (apply elem_of_cons in Hin as [Heq|Hin]; [discriminate Heq|]).
    by apply elem_of_nil in Hin.
Qed.

Lemma register_methods_stops path before k op after app :
  Forall (λ entry : string * operation,
            is_express_verb (toLowerCase entry.1) = true) before ->
  is_express_verb (toLowerCase k) = false ->
  register_methods path (before ++ (k, op) :: after)%list app
  = inl (NotAFunction path k).
Proof.
  intros Hbefore Hk. revert app.
  induction Hbefore as [|[m o] before Hm _ IH]; intros app; simpl.
  - by rewrite Hk.
  - simpl in Hm. by rewrite Hm, IH.
Qed.

(** X12. A path item that carries, beside its operations, a key that is
    no HTTP verb ([parameters], [summary], [description], [servers],
    [$ref] or an [x-] extension) stops the registration at that key:
    [startServer] throws and no server starts, the contract being valid
    and the static file readable or absent. *)
Theorem registration_stops_at_annex_key c earlier path before k op after later :
  paths c = (earlier ++ (path, before ++ (k, op) :: after) :: later)%list ->
  verbs_only (Contract earlier) ->
  Forall (λ entry : string * operation,
            is_express_verb (toLowerCase entry.1) = true) before ->
  annex_key k ->
  startServer (Loaded c) None = inl (NotAFunction path k)
  ∧ ∀ table, startServer (Loaded c) (Some (Loaded table))
             = inl (NotAFunction path k).
Proof.
  intros Hpaths Hearlier Hbefore Hk.
  assert (Hreg : ∀ app, register_paths (paths c) app = inl (NotAFunction path k)).
  { rewrite Hpaths. unfold verbs_only in Hearlier. simpl in Hearlier.
    clear Hpaths. induction Hearlier as [|[p ms] earlier Hms _ IH]; intros app.
    - simpl. rewrite register_methods_stops; auto using annex_key_no_verb.
    - simpl. rewrite register_methods_verbs by done. apply IH. }
  unfold startServer. by rewrite Hreg.
Qed.

(** *** The Angular forms *)

Section FormsFacts.

Import Forms.

Lemma has_char_app c (a b : string) :
  has_char c (a +:+ b) = has_char c a || has_char c b.
Proof.
  induction a as [|x a IH]; [done|]. rewrite append_cons. cbn [has_char].
  by rewrite IH, orb_assoc.
Qed.

Lemma indexOf_space_from_sign i s :
  0 <= i ->
  if has_char " " s then 0 <= indexOf_space_from i s
  else indexOf_space_from i s = -1.
Proof.
  revert i. induction s as [|c s IH]; intros i Hi; cbn [has_char indexOf_space_from].
  - done.
  - destruct (Ascii.eqb c " "); [done|]. simpl. apply IH. lia.
Qed.

(** X14. [cannotContainSpace] passes exactly the values without a space
    character (the empty value among them), so a value put together from
    two parts passes if and only if both parts pass. *)
Theorem cannotContainSpace_composes a b :
  (cannotContainSpace a = None <-> has_char " " a = false)
  ∧ (cannotContainSpace (a +:+ b) = None
     <-> cannotContainSpace a = None ∧ cannotContainSpace b = None).
Proof.
  assert (Hspec : ∀ v, cannotContainSpace v = None <-> has_char " " v = false).
  { intros v. unfold cannotContainSpace, indexOf_space.
    pose proof (indexOf_space_from_sign 0 v (Z.le_refl 0)) as H.
    destruct (has_char " " v).
    - apply Z.leb_le in H. rewrite H. done.
    - rewrite H. done. }
  split; [apply Hspec|].
  rewrite !Hspec, has_char_app. apply orb_false_iff.
Qed.

Lemma indexOf_from_found i topic before c after :
  Forall (λ x, control_id x ≠ control_id topic) before ->
  control_id c = control_id topic ->
  indexOf_from i topic (before ++ c :: after)%list
  = i + Z.of_nat (length before).
Proof.
  intros Hbefore Hc. revert i.
  induction Hbefore as [|x before Hx _ IH]; intros i; simpl.
  - rewrite Hc, Nat.eqb_refl. lia.
  - apply Nat.eqb_neq in Hx. rewrite Hx, IH. lia.
Qed.

Lemma indexOf_from_absent i topic controls :
  Forall (λ x, control_id x ≠ control_id topic) controls ->
  indexOf_from i topic controls = -1.
Proof.
  intros Hall. revert i. induction Hall as [|x l Hx _ IH]; intros i; simpl.
  - done.
  - apply Nat.eqb_neq in Hx. by rewrite Hx, IH.
Qed.

Lemma splice_at_found topic before c after :
  Forall (λ x, control_id x ≠ control_id topic) before ->
  control_id c = control_id topic ->
  splice_one (indexOf topic (before ++ c :: after)%list)
             (before ++ c :: after)%list
  = (before ++ after)%list.
Proof.
  intros Hbefore Hc. unfold indexOf, splice_one.
  rewrite (indexOf_from_found 0 topic before c after) by done.
  rewrite length_app. simpl.
  replace (0 + Z.of_nat (length before) <? 0) with false
    by (symmetry; apply Z.ltb_ge; lia).
  rewrite Z.min_l by lia.
  replace (Z.to_nat (0 + Z.of_nat (length before))) with (length before) by lia.
  apply delete_middle.
Qed.

(** X15. [remove] takes out the control it is given, at its first
    position, and nothing else: the topics before and after it stay in
    their order. *)
Theorem remove_present topic f before c after :
  topics f = (before ++ c :: after)%list ->
  Forall (λ x, control_id x ≠ control_id topic) before ->
  control_id c = control_id topic ->
  topics (remove topic f) = (before ++ after)%list.
Proof.
  intros Hf Hbefore Hc. unfold remove, removeAt. simpl.
  rewrite Hf. by apply splice_at_found.
Qed.

Lemma delete_last_index (l : list form_control) :
  delete (Z.to_nat (Z.max (Z.of_nat (length l) + -1) 0)) l = removelast l.
Proof.
  destruct l as [|x l] using rev_ind; [done|].
  rewrite length_app. simpl.
  replace (Z.to_nat (Z.max (Z.of_nat (length l + 1) + -1) 0)) with (length l)
    by lia.
  by rewrite delete_middle, removelast_last, app_nil_r.
Qed.

(** X16. Given a control that is not among the topics, [remove] does not
    leave the list alone: [indexOf] answers -1 and [splice(-1, 1)] takes
    out the last topic. Only an empty list stays as it is. *)
Theorem remove_absent_drops_last topic f :
  Forall (λ x, control_id x ≠ control_id topic) (topics f) ->
  topics (remove topic f) = removelast (topics f).
Proof.
  intros Habsent. unfold remove, removeAt, indexOf, splice_one. simpl.
  rewrite indexOf_from_absent by done. simpl.
  apply delete_last_index.
Qed.

(** X17. Adding a topic and removing the control just added gives the
    topics back as they were, and both operations keep the form well
    formed (every control created by the component, once). *)
Theorem add_then_remove f topic_value :
  well_formed f ->
  topics (remove (FormControl (created f) topic_value) (addTopic topic_value f))
  = topics f
  ∧ well_formed (addTopic topic_value f)
  ∧ ∀ topic, well_formed (remove topic f).
Proof.
  intros [Hnodup Hbound]. split; [|split].
  - unfold remove, removeAt, addTopic. simpl.
    rewrite splice_at_found; [apply app_nil_r| |done].
    eapply Forall_impl; [exact Hbound|]. simpl. intros x Hx. lia.
  - split; simpl.
    + rewrite fmap_app. simpl. apply NoDup_app. split; [done|]. split.
      * intros x Hx Hin. apply list_elem_of_singleton in Hin as ->.
        apply list_elem_of_fmap in Hx as (c & Hc & Hin).
        rewrite Forall_forall in Hbound. specialize (Hbound c Hin). lia.
      * apply NoDup_singleton.
    + apply Forall_app. split.
      * eapply Forall_impl; [exact Hbound|]. simpl. intros x Hx. lia.
      * repeat constructor.
  - intros topic. unfold remove, removeAt, splice_one. split; simpl.
    + rewrite list_fmap_delete. eapply sublist_NoDup; [done|apply sublist_delete].
    + by apply Forall_delete.
Qed.

End FormsFacts.

(** *** The further properties on the samples *)

Section ExtrasOnSamples.

Import Samples Forms.

Local Abbreviation handle := (handler sample_uuid sample_jsf).
Local Abbreviation generate := (generateResponse sample_jsf).

Lemma numeric_status_key_is_sent_on_payments :
  status (handle "/payments" "post" post_payment (initial_state ∅)
            (Request {[ "x-mock-response" := "201" ]} ∅ payment)).2
  = VNum 201.
Proof.
  pose proof (numeric_status_key_is_sent sample_uuid sample_jsf "/payments"
                "post" post_payment (initial_state ∅)
                (Request {[ "x-mock-response" := "201" ]} ∅ payment)
                (ResponseDef (Some (MediaType created_example object_schema))))
    as Hsent.
  destruct (Hsent eq_refl eq_refl eq_refl eq_refl) as (_ & _ & Hstatus).
  apply Hstatus. discriminate.
Defined.

(** [POST /payments] declares 201 only; without the status header the
    body is stored and the answer is the error with the reference. *)
Lemma store_step_runs_on_undeclared_status_on_payments :
  let out := handle "/payments" "post" post_payment (initial_state ∅)
               (Request ∅ ∅ payment) in
  dataStore out.1.1 !! sample_uuid 0 = Some payment
  ∧ out.2 = Response (VNum 500)
              (VObj [("error", VStr "No response defined for status 200");
                     ("reference", VStr (sample_uuid 0))]).
Proof.
  pose proof (store_step_runs_on_undeclared_status sample_uuid sample_jsf
                "/payments" "post" post_payment (MockStore (Some "reference"))
                (initial_state ∅) (Request ∅ ∅ payment)) as Hruns.
  exact (Hruns eq_refl eq_refl eq_refl eq_refl eq_refl).
Defined.

Lemma store_step_rewrites_example_on_payments :
  let out := handle "/payments" "post" post_payment (initial_state ∅)
               (Request {[ "x-mock-response" := "201" ]} ∅ payment) in
  let b := VObj [("reference", VStr (sample_uuid 0)); ("status", VStr "pending")] in
  out.2 = Response (VNum 201) b
  ∧ default ∅ (responses out.1.2) !! "201"
    = Some (ResponseDef (Some (MediaType b object_schema))).
Proof.
  pose proof (store_step_rewrites_example sample_uuid sample_jsf
                "/payments" "post" post_payment (MockStore (Some "reference"))
                (initial_state ∅)
                (Request {[ "x-mock-response" := "201" ]} ∅ payment)
                (ResponseDef (Some (MediaType created_example object_schema)))
                (MediaType created_example object_schema) "reference")
    as Hrewrites.
  exact (Hrewrites eq_refl eq_refl eq_refl eq_refl eq_refl eq_refl eq_refl).
Defined.

Lemma store_step_rewrites_static_entry_on_payments :
  static_lookup
    (staticResponses
       (handle "/payments" "post" post_payment (initial_state sample_statics)
          (Request ∅ ∅ payment)).1.1)
    "/payments" "post"
  = Some (StaticEntry (VNum 202)
            (VObj [("status", VStr "accepted");
                   ("reference", VStr (sample_uuid 0))])).
Proof.
  exact (store_step_rewrites_static_entry sample_uuid sample_jsf
           "/payments" "post" post_payment (MockStore (Some "reference"))
           accepted (initial_state sample_statics) (Request ∅ ∅ payment)
           eq_refl eq_refl eq_refl).
Defined.

Lemma handler_keeps_other_static_entries_on_payments :
  static_lookup
    (staticResponses
       (handle "/payments" "post" post_payment (initial_state sample_statics)
          (Request ∅ ∅ payment)).1.1)
    "/payments/{reference}" "get"
  = Some teapot.
Proof.
  rewrite (handler_keeps_other_static_entries sample_uuid sample_jsf
             "/payments" "post" post_payment (initial_state sample_statics)
             (Request ∅ ∅ payment) "/payments/{reference}" "get");
    [reflexivity|discriminate].
Defined.

Lemma store_never_forgets_on_payments :
  dom (dataStore (handle "/payments" "post" post_payment (initial_state ∅)
                    (Request ∅ ∅ payment)).1.1)
  ⊆ dom (dataStore
           (handle "/payments" "post" post_payment
              (handle "/payments" "post" post_payment (initial_state ∅)
                 (Request ∅ ∅ payment)).1.1
              (Request ∅ ∅ (VObj []))).1.1).
Proof.
  apply (store_never_forgets sample_uuid sample_jsf).
  apply rtc_once. constructor.
Defined.

Lemma store_grows_on_payments :
  let st1 := (handle "/payments" "post" post_payment (initial_state ∅)
                (Request ∅ ∅ payment)).1.1 in
  size (dataStore st1) = uuid_calls st1 ∧ uuid_calls st1 = 1%nat.
Proof.
  split; [|reflexivity].
  apply (store_grows_with_every_store_call sample_uuid sample_jsf ∅ _
           sample_uuid_distinct).
  apply rtc_once. constructor.
Defined.

Lemma linkage_extends_first_server_on_summary :
  (serve_all sample_uuid sample_jsf
     (Server summary_routes (initial_state ∅))
     [summary_request; HttpRequest "GET" "/flag" ∅ NoBody]).2
  = (serve_all_v1 sample_jsf summary_routes ∅ 0
       [summary_request; HttpRequest "GET" "/flag" ∅ NoBody]).2.
Proof.
  refine (f_equal snd
            (@linkage_extends_first_server sample_express sample_uuid sample_jsf
               summary_routes ∅ ∅ 0%nat 0%nat
               [summary_request; HttpRequest "GET" "/flag" ∅ NoBody] _)).
  repeat constructor.
Defined.

Lemma route_pattern_placeholder_on_payments :
  route_pattern "/payments/{reference}/events"
  = "/payments/:reference" +:+ route_pattern "/events".
Proof.
  exact (route_pattern_placeholder "/payments/" "reference" "/events"
           eq_refl ltac:(discriminate) eq_refl).
Defined.

Lemma route_pattern_verbatim_on_unclosed :
  route_pattern "/payments/{reference" = "/payments/{reference".
Proof. exact (route_pattern_verbatim "/payments/{reference" (or_intror eq_refl)). Defined.

Lemma registration_stops_at_parameters :
  startServer (Loaded annexed) None
  = inl (NotAFunction "/payments/{reference}" "parameters").
Proof.
  refine (proj1 (registration_stops_at_annex_key annexed
                   [("/payments", [("post", post_payment)])]
                   "/payments/{reference}" [("get", get_payment)]
                   "parameters" get_payment [] [] eq_refl _ _ _)).
  - repeat constructor.
  - repeat constructor.
  - left. by apply (bool_decide_unpack _).
Defined.


(** [POST /payments] with the body [null], on a server that holds a
    payment. *)
Lemma refused_body_on_payments :
  let srv := Server banking_routes (State {[ "ref-0" := payment ]} ∅ 1 0) in
  serve sample_uuid sample_jsf srv (post_request (JsonText VNull))
  = (srv,
     Some (Response (VNum 400)
             (VObj [("error", VStr "Unexpected token in JSON at position 0");
                    ("details", VUndefined)]))).
Proof.
  refine (@refused_body_reaches_no_route sample_express sample_uuid sample_jsf
            (Server banking_routes (State {[ "ref-0" := payment ]} ∅ 1 0))
            (post_request (JsonText VNull)) _).
  right. exists VNull. split; [reflexivity|]. split; discriminate.
Defined.

(** [GET /payments/summary] asked for the status [constructor]. *)
Lemma inherited_status_name_on_summary :
  selected_status get_summary "constructor" = "constructor"
  ∧ generate "/payments/summary" "get" get_summary ∅ "constructor" 0
    = Generated (Response VNaN (VObj [])) Fresh 0.
Proof.
  exact (inherited_status_name_is_selected sample_jsf "/payments/summary" "get"
           get_summary ∅ "constructor" 0 eq_refl eq_refl eq_refl).
Defined.

Lemma remove_present_on_three_topics :
  topics (remove (FormControl 1 "b") three_topics)
  = [FormControl 0 "a"; FormControl 2 "c"].
Proof.
  refine (remove_present (FormControl 1 "b") three_topics
            [FormControl 0 "a"] (FormControl 1 "b") [FormControl 2 "c"]
            eq_refl _ eq_refl).
  repeat constructor. simpl. lia.
Defined.

Lemma remove_absent_on_three_topics :
  topics (remove (FormControl 7 "a") three_topics)
  = [FormControl 0 "a"; FormControl 1 "b"].
Proof.
  refine (remove_absent_drops_last (FormControl 7 "a") three_topics _).
  repeat constructor; simpl; lia.
Defined.

Lemma add_then_remove_on_three_topics :
  topics (remove (FormControl 3 "d") (addTopic "d" three_topics))
  = topics three_topics.
Proof.
  refine (proj1 (add_then_remove three_topics "d" _)).
  split.
  - by apply (bool_decide_unpack _).
  - repeat constructor; simpl; lia.
Defined.

End ExtrasOnSamples.
